(** * ai_messaging_bot.py: a group-chat assistant over an SQLite knowledge base

    A shallow embedding of [src/ai_messaging_bot.py] and the properties of
    its FAQ store, relevance classifier, question extractor, reminder
    service and per-group context buffer.

    Conventions of the embedding.
    - A Python [str] is the list of its Unicode code points ([str]).
    - The three SQLite tables are lists of rows in insertion (rowid) order;
      a [SELECT] without [ORDER BY] on these index-free tables scans in
      that order, so [fetchone] yields the oldest matching row.
    - Collaborators that live outside the file (the Unicode tables of the
      Python runtime, the spaCy pipeline [nlp], the wall clock, a failing
      SQLite call) are interfaces or explicit inputs.
    - SQLite calls succeed, except in [store_reminder], the one place
      where the source handles their failure; there the failing call is
      an input.
    - Every handler returns the new bot state together with its [Effects]:
      the replies sent, the error records logged and the tasks created. *)

From Stdlib Require Import String Ascii.
From stdpp Require Import base numbers option list gmap pretty.

Local Open Scope Z_scope.
Local Open Scope list_scope.

(** ** Strings *)

(** A code point. *)
Abbreviation char := N.

(** A Python [str]. *)
Abbreviation str := (list N).

(** An ASCII literal of the source, as a [str]. *)
Definition lit (s : string) : str := N_of_ascii <$> list_ascii_of_string s.

Definition is_ascii (c : char) : bool := (c <? 128)%N.

Definition ascii_upper (c : char) : bool := (65 <=? c)%N && (c <=? 90)%N.

Definition ascii_lower (c : char) : char :=
  if ascii_upper c then (c + 32)%N else c.

Definition ascii_alnum (c : char) : bool :=
  (48 <=? c)%N && (c <=? 57)%N
  || (65 <=? c)%N && (c <=? 90)%N
  || (97 <=? c)%N && (c <=? 122)%N.

Definition ascii_decimal (c : char) : option N :=
  if (48 <=? c)%N && (c <=? 57)%N then Some (c - 48)%N else None.

(** [str.isspace] on one code point; also the class [\s] of [re] on [str]
    patterns. The table is complete: these are all the code points that
    CPython classifies as whitespace. *)
Definition isspace (c : char) : bool :=
  (9 <=? c)%N && (c <=? 13)%N
  || (28 <=? c)%N && (c <=? 32)%N
  || (c =? 133)%N || (c =? 160)%N || (c =? 5760)%N
  || (8192 <=? c)%N && (c <=? 8202)%N
  || (c =? 8232)%N || (c =? 8233)%N || (c =? 8239)%N
  || (c =? 8287)%N || (c =? 12288)%N.

(** [s.strip()] *)
Fixpoint lstrip (s : str) : str :=
  match s with
  | c :: s' => if isspace c then lstrip s' else s
  | [] => []
  end.

Definition strip (s : str) : str := reverse (lstrip (reverse (lstrip s))).

(** [sep.join(parts)] *)
Fixpoint join (sep : str) (parts : list str) : str :=
  match parts with
  | [] => []
  | [p] => p
  | p :: ps => p ++ sep ++ join sep ps
  end.

(** [s.split(d)] for a one-character separator: never an empty list. *)
Fixpoint split (d : char) (s : str) : list str :=
  match s with
  | [] => [[]]
  | c :: s' =>
      if (c =? d)%N then [] :: split d s'
      else match split d s' with
           | p :: ps => (c :: p) :: ps
           | [] => [[c]]
           end
  end.

(** [needle in s] *)
Fixpoint prefixb (p s : str) : bool :=
  match p, s with
  | [], _ => true
  | a :: p', b :: s' => (a =? b)%N && prefixb p' s'
  | _ :: _, [] => false
  end.

Fixpoint contains (needle s : str) : bool :=
  prefixb needle s ||
  match s with
  | [] => false
  | _ :: s' => contains needle s'
  end.

(** ** The Unicode tables of the Python runtime

    [str.lower()], [str.isalnum()] (behind [\w] and [\b] of [re]) and the
    decimal value of a digit (behind [\d] and [int]) follow the Unicode
    character database, which is not part of the program. On ASCII they
    are fixed; elsewhere they are what the runtime supplies. *)
Class Unicode := {
  str_lower : str -> str;
  isalnum : char -> bool;
  decimal : char -> option N;
  str_lower_ascii s :
    forallb is_ascii s = true -> str_lower s = ascii_lower <$> s;
  isalnum_ascii c : is_ascii c = true -> isalnum c = ascii_alnum c;
  decimal_ascii c : is_ascii c = true -> decimal c = ascii_decimal c
}.

(** The runtime's tables on Basic Latin and Latin-1 Supplement
    (U+0000..U+00FF), where lowercasing is a per-character map: the
    capitals U+00C0..U+00DE other than the multiplication sign U+00D7
    move up by 32. Used to run the program on concrete inputs; it agrees
    with CPython on every string of code points below U+0100. *)
Definition latin1_lower (c : char) : char :=
  if ascii_upper c then (c + 32)%N
  else if (192 <=? c)%N && (c <=? 222)%N && negb (c =? 215)%N then (c + 32)%N
  else c.

Definition latin1_alnum (c : char) : bool :=
  ascii_alnum c
  || (c =? 170)%N || (c =? 178)%N || (c =? 179)%N || (c =? 181)%N
  || (c =? 185)%N || (c =? 186)%N || (c =? 188)%N || (c =? 189)%N
  || (c =? 190)%N
  || (192 <=? c)%N && (c <=? 255)%N && negb (c =? 215)%N && negb (c =? 247)%N.

Definition latin1 : Unicode.
Proof.
  refine {| str_lower s := latin1_lower <$> s;
            isalnum := latin1_alnum;
            decimal := ascii_decimal |}.
  - intros s. induction s as [|c s IH]; [reflexivity|].
    cbn [forallb]. intros [Hc Hs]%andb_prop.
    rewrite !fmap_cons, (IH Hs). f_equal.
    unfold latin1_lower, ascii_lower, is_ascii in *.
    destruct (ascii_upper c); [reflexivity|].
    destruct (192 <=? c)%N eqn:E; [|reflexivity].
    apply N.leb_le in E. apply N.ltb_lt in Hc. lia.
  - intros c. unfold latin1_alnum, is_ascii. intros Hc%N.ltb_lt.
    repeat match goal with
           | |- context [(c =? ?a)%N] =>
               replace (c =? a)%N with false
                 by (symmetry; apply N.eqb_neq; lia)
           end.
    replace (192 <=? c)%N with false by (symmetry; apply N.leb_gt; lia).
    simpl. rewrite !orb_false_r. reflexivity.
  - reflexivity.
Defined.

(** ** The keyword patterns

    Each entry of [IMPORTANT_KEYWORDS] has the shape [\b(k1|...|kn)\b]; it
    is kept as the list of its alternatives, and [re_search] interprets
    the two word-boundary assertions around the group. *)

Definition IMPORTANT_KEYWORDS : list (list str) :=
  [ lit <$> ["announcement"; "event"; "reminder"; "urgent"; "critical";
             "deadline"]%string;
    lit <$> ["date"; "time"; "location"; "schedule"]%string ].

Section Regex.
Context {U : Unicode}.

(** [\w]: alphanumeric or underscore. *)
Definition is_word (c : char) : bool := isalnum c || (c =? 95)%N.

Definition word_at (s : str) (i : nat) : bool :=
  match s !! i with
  | Some c => is_word c
  | None => false
  end.

(** [\b] at offset [i]: exactly one of the characters before and at [i]
    is a word character; outside the string counts as a non-word. *)
Definition boundary (s : str) (i : nat) : bool :=
  xorb (match i with O => false | S j => word_at s j end) (word_at s i).

(** [\b(k1|...|kn)\b] matched at offset [i], alternatives in order. *)
Definition match_at (alts : list str) (s : str) (i : nat) : bool :=
  boundary s i
  && existsb (fun k => prefixb k (drop i s) && boundary s (i + length k))
             alts.

(** [re.search(pattern, s)] as a truth value. *)
Definition re_search (alts : list str) (s : str) : bool :=
  existsb (match_at alts s) (seq 0 (S (length s))).
End Regex.

(** ** The spaCy pipeline

    [nlp(text)] yields a document with its named entities and its
    sentences; a sentence exposes its text and the lemmas of its tokens.
    The pipeline is a trained model outside the program. *)
Record Token := { lemma_ : str }.
Record Span := { text : str; tokens : list Token }.
Record Ent := { label_ : str }.
Record Doc := { ents : list Ent; sents : list Span }.

Class Pipeline := { nlp : str -> Doc }.

(** A pipeline that recognises nothing: no entity, no sentence. *)
Definition blank_pipeline : Pipeline := {| nlp _ := {| ents := []; sents := [] |} |}.

(** A pipeline that returns the whole text as one sentence, one token per
    space-separated word, each word its own lemma, and no entity. *)
Definition whitespace_pipeline : Pipeline :=
  {| nlp s := {| ents := [];
                 sents := [ {| text := s;
                               tokens := Build_Token <$> split 32%N s |} ] |} |}.

Section Classifiers.
Context {U : Unicode} {P : Pipeline}.

Definition important_label (ent : Ent) : bool :=
  bool_decide (label_ ent ∈ lit <$> ["DATE"; "TIME"; "EVENT"]%string).

(** [AIMessagingBot.detect_relevance] *)
Definition detect_relevance (msg : str) : bool :=
  let doc := nlp (str_lower msg) in
  existsb (fun pattern => re_search pattern (str_lower msg))
          IMPORTANT_KEYWORDS
  || existsb important_label (ents doc).

Definition question_lemma (token : Token) : bool :=
  bool_decide
    (lemma_ token ∈ lit <$> ["what"; "how"; "when"; "where"; "why"]%string).

(** The test of the loop of [extract_question] on one sentence. *)
Definition looks_like_question (sent : Span) : bool :=
  contains (lit "?") (text sent) || existsb question_lemma (tokens sent).

(** [AIMessagingBot.extract_question]: the loop returns at the first
    sentence that passes the test. *)
Definition extract_question (msg : str) : option str :=
  match find looks_like_question (sents (nlp msg)) with
  | Some sent => Some (strip (text sent))
  | None => None
  end.
End Classifiers.

(** ** Dates and times

    A naive [datetime.datetime]. *)
Record datetime := {
  year : Z; month : Z; day : Z;
  hour : Z; minute : Z; second : Z; microsecond : Z
}.

Definition fields (t : datetime) : list Z :=
  [year t; month t; day t; hour t; minute t; second t; microsecond t].

Fixpoint lex_lt (a b : list Z) : bool :=
  match a, b with
  | x :: a', y :: b' => (x <? y) || (x =? y) && lex_lt a' b'
  | _, _ => false
  end.

(** [a < b] on datetimes: field by field, most significant first. *)
Definition datetime_lt (a b : datetime) : bool := lex_lt (fields a) (fields b).

Definition is_leap (y : Z) : bool :=
  (y mod 4 =? 0) && (negb (y mod 100 =? 0) || (y mod 400 =? 0)).

Definition days_in_month (y m : Z) : Z :=
  if m =? 2 then (if is_leap y then 29 else 28)
  else if (m =? 4) || (m =? 6) || (m =? 9) || (m =? 11) then 30
  else 31.

Definition days_before_year (y : Z) : Z :=
  let p := y - 1 in p * 365 + p / 4 - p / 100 + p / 400.

Definition days_before_month (y m : Z) : Z :=
  foldr Z.add 0 (days_in_month y <$> (Z.of_nat <$> seq 1 (Z.to_nat (m - 1)))).

(** Proleptic Gregorian ordinal, 0001-01-01 being day 1. *)
Definition ymd2ord (y m d : Z) : Z :=
  days_before_year y + days_before_month y m + d.

Definition to_microseconds (t : datetime) : Z :=
  (((ymd2ord (year t) (month t) (day t) * 24 + hour t) * 60 + minute t) * 60
   + second t) * 1000000 + microsecond t.

(** [(a - b).total_seconds()], kept exact in microseconds. *)
Definition delay_between (a b : datetime) : Z :=
  to_microseconds a - to_microseconds b.

(** ** [datetime.strptime(s, "%Y-%m-%d %H:%M")]

    The library turns the format into the regular expression
    [(\d\d\d\d)-(1[0-2]|0[1-9]|[1-9])-(3[0-1]|[1-2]\d|0[1-9]|[1-9]| [1-9])\s+(2[0-3]|[0-1]\d|\d):([0-5]\d|\d)],
    matches it at the start of the string, rejects what is left over, and
    builds the date, which rejects year 0 and a day the month does not
    have. The expression is run here as a backtracking parser: a parser
    returns its successes in the order in which the matcher tries them. *)
Section Strptime.
Context {U : Unicode}.

Definition parser (A : Type) : Type := str -> list (A * str).

Definition pure {A} (a : A) : parser A := fun s => [(a, s)].

Definition andthen {A B} (p : parser A) (f : A -> parser B) : parser B :=
  fun s => x ← p s; f x.1 x.2.

Definition orelse {A} (p q : parser A) : parser A := fun s => p s ++ q s.

(** [\d] *)
Definition digit : parser Z :=
  fun s => match s with
           | c :: s' => match decimal c with
                        | Some v => [(Z.of_N v, s')]
                        | None => []
                        end
           | [] => []
           end.

(** [[lo-hi]] on ASCII digits *)
Definition digit_in (lo hi : N) : parser Z :=
  fun s => match s with
           | c :: s' =>
               if (48 + lo <=? c)%N && (c <=? 48 + hi)%N
               then [(Z.of_N (c - 48), s')] else []
           | [] => []
           end.

(** A literal character. *)
Definition exactly (d : char) : parser unit :=
  fun s => match s with
           | c :: s' => if (c =? d)%N then [((), s')] else []
           | [] => []
           end.

Definition two (p q : parser Z) : parser Z :=
  andthen p (fun a => andthen q (fun b => pure (10 * a + b))).

(** [\s*] and [\s+], greedy: the longest run first. *)
Fixpoint spaces0 (s : str) : list (unit * str) :=
  match s with
  | c :: s' => if isspace c then spaces0 s' ++ [((), s)] else [((), s)]
  | [] => [((), [])]
  end.

Definition spaces1 : parser unit :=
  fun s => match s with
           | c :: s' => if isspace c then spaces0 s' else []
           | [] => []
           end.

Definition directive_Y : parser Z :=
  andthen (two digit digit) (fun hi =>
  andthen (two digit digit) (fun lo => pure (100 * hi + lo))).

Definition directive_m : parser Z :=
  orelse (two (digit_in 1 1) (digit_in 0 2))
 (orelse (two (digit_in 0 0) (digit_in 1 9))
         (digit_in 1 9)).

Definition directive_d : parser Z :=
  orelse (two (digit_in 3 3) (digit_in 0 1))
 (orelse (two (digit_in 1 2) digit)
 (orelse (two (digit_in 0 0) (digit_in 1 9))
 (orelse (digit_in 1 9)
         (andthen (exactly 32%N) (fun _ => digit_in 1 9))))).

Definition directive_H : parser Z :=
  orelse (two (digit_in 2 2) (digit_in 0 3))
 (orelse (two (digit_in 0 1) digit)
         digit).

Definition directive_M : parser Z :=
  orelse (two (digit_in 0 5) digit) digit.

Definition format_regex : parser datetime :=
  andthen directive_Y (fun Y =>
  andthen (exactly 45%N) (fun _ =>
  andthen directive_m (fun m =>
  andthen (exactly 45%N) (fun _ =>
  andthen directive_d (fun d =>
  andthen spaces1 (fun _ =>
  andthen directive_H (fun H =>
  andthen (exactly 58%N) (fun _ =>
  andthen directive_M (fun M =>
  pure {| year := Y; month := m; day := d; hour := H; minute := M;
          second := 0; microsecond := 0 |}))))))))).

(** [None] stands for the [ValueError] the library raises. *)
Definition strptime (s : str) : option datetime :=
  match format_regex s with
  | [] => None
  | (t, rest) :: _ =>
      match rest with
      | _ :: _ => None
      | [] =>
          if (1 <=? year t) && (day t <=? days_in_month (year t) (month t))
          then Some t else None
      end
  end.
End Strptime.

(** ** The database [group_knowledge.db]

    A frequency is a Python [int] on its way to an INTEGER column; it
    starts at 1 and moves by steps of 1, far from the 64-bit range of the
    column, and is kept as an unbounded integer. *)

Record FAQEntry := {
  group_id : str; question : str; answer : str; frequency : Z
}.

Record ImportantMessage := {
  important_group_id : str; important_message_id : Z; important_content : str
}.

Record Reminder := {
  reminder_group_id : str; reminder_message_id : Z; reminder_content : str;
  remind_time : datetime
}.

Record Database := {
  knowledge : list FAQEntry;
  important_messages : list ImportantMessage;
  reminders : list Reminder
}.

(** What [init_db] leaves on first start: three empty tables. *)
Definition init_db : Database :=
  {| knowledge := []; important_messages := []; reminders := [] |}.

Definition with_knowledge (rows : list FAQEntry) (db : Database) : Database :=
  {| knowledge := rows;
     important_messages := important_messages db;
     reminders := reminders db |}.

(** SQLite's built-in [LOWER]: it folds the 26 ASCII capitals and leaves
    every other character as it is (the program loads no extension that
    would replace it). *)
Definition sql_lower (s : str) : str := ascii_lower <$> s.

(** [WHERE group_id = ? AND LOWER(question) = ?] *)
Definition matches (group lowered : str) (row : FAQEntry) : Prop :=
  group_id row = group ∧ sql_lower (question row) = lowered.

#[export] Instance matches_dec group lowered row :
  Decision (matches group lowered row).
Proof. unfold matches. apply _. Defined.

(** [SELECT answer, frequency FROM knowledge
     WHERE group_id = ? AND LOWER(question) = ?] *)
Definition select_answer_frequency (group lowered : str)
    (rows : list FAQEntry) : list (str * Z) :=
  (fun row => (answer row, frequency row))
    <$> filter (matches group lowered) rows.

(** [cursor.fetchone()] *)
Definition fetchone {A} (rows : list A) : option A := head rows.

(** [UPDATE knowledge SET frequency = ? WHERE group_id = ? AND question = ?] *)
Definition update_frequency (freq : Z) (group q : str)
    (rows : list FAQEntry) : list FAQEntry :=
  (fun row =>
     if bool_decide (group_id row = group ∧ question row = q)
     then {| group_id := group_id row; question := question row;
             answer := answer row; frequency := freq |}
     else row) <$> rows.

Section Bot.
Context {U : Unicode} {P : Pipeline}.

(** [AIMessagingBot.store_important_message] *)
Definition store_important_message (group : str) (message_id : Z)
    (content : str) (db : Database) : Database :=
  {| knowledge := knowledge db;
     important_messages :=
       important_messages db
       ++ [ {| important_group_id := group;
               important_message_id := message_id;
               important_content := content |} ];
     reminders := reminders db |}.

(** [AIMessagingBot.get_faq_answer]. The third parameter of the
    [UPDATE] is [result[0]], the first selected column: the answer. *)
Definition get_faq_answer (group q : str) (db : Database)
    : option str * Database :=
  match fetchone (select_answer_frequency group (str_lower q)
                    (knowledge db)) with
  | Some result =>
      let '(answer, freq) := result in
      (Some answer,
       with_knowledge
         (update_frequency (freq + 1) group result.1 (knowledge db)) db)
  | None => (None, db)
  end.

(** [AIMessagingBot.store_faq] *)
Definition store_faq (group q a : str) (db : Database) : Database :=
  with_knowledge
    (knowledge db
     ++ [ {| group_id := group; question := q; answer := a;
             frequency := 1 |} ]) db.
End Bot.

(** ** Effects of a handler *)

(** A failing SQLite call inside [store_reminder], by the statement that
    raises [sqlite3.Error]. *)
Inductive StorageFault := ConnectFails | ExecuteFails | CommitFails.

(** The [logger.error] calls of the source (the [logger.info] calls touch
    neither the state nor the replies and are left out). *)
Inductive LogRecord :=
| SQLiteErrorInStoreReminder
| ValueErrorInSetReminder
| ErrorInSetReminder.

(** [asyncio.create_task(schedule_reminder(update, content, delay))]: after
    [delay] the task replies in the chat of [update]. *)
Record Task := { task_chat : Z; task_content : str; task_delay : Z }.

(** [schedule_reminder]: what the task sends once its delay has elapsed. *)
Definition schedule_reminder (t : Task) : str :=
  [9200%N] ++ lit " Reminder: " ++ task_content t.

Record Effects := {
  replies : list str;
  logged : list LogRecord;
  tasks : list Task
}.

Definition no_effect : Effects := {| replies := []; logged := []; tasks := [] |}.

Definition reply_text (s : str) : Effects :=
  {| replies := [s]; logged := []; tasks := [] |}.

Definition log_error (r : LogRecord) : Effects :=
  {| replies := []; logged := [r]; tasks := [] |}.

Definition create_task (t : Task) : Effects :=
  {| replies := []; logged := []; tasks := [t] |}.

(** Effects in sequence. *)
Definition then_ (a b : Effects) : Effects :=
  {| replies := replies a ++ replies b;
     logged := logged a ++ logged b;
     tasks := tasks a ++ tasks b |}.

Infix "+>" := then_ (at level 61, left associativity).

(** Exceptions that leave [store_reminder]. *)
Inductive Raised := UnboundLocalError.

(** [AIMessagingBot.store_reminder]. The [try] block connects, executes
    the [INSERT] and commits; [except sqlite3.Error] logs; [finally]
    closes [conn], which is unbound when [sqlite3.connect] itself raised.
    A row inserted but not committed is rolled back by [close]. *)
Definition store_reminder (fault : option StorageFault) (group : str)
    (message_id : Z) (content : str) (when : datetime) (db : Database)
    : (Database * Effects) * option Raised :=
  let row := {| reminder_group_id := group; reminder_message_id := message_id;
                reminder_content := content; remind_time := when |} in
  let inserted :=
    {| knowledge := knowledge db;
       important_messages := important_messages db;
       reminders := reminders db ++ [row] |} in
  let '(conn_bound, db', sqlite_error) :=
    match fault with
    | Some ConnectFails => (false, db, true)
    | Some ExecuteFails => (true, db, true)
    | Some CommitFails => (true, db, true)
    | None => (true, inserted, false)
    end in
  let handled :=
    if sqlite_error then log_error SQLiteErrorInStoreReminder else no_effect in
  ((db', handled), if conn_bound then None else Some UnboundLocalError).

(** ** The handlers *)

(** The bot object: the database it writes to and its in-memory
    [group_context], a [defaultdict(list)] keyed by group id. *)
Record AIMessagingBot := {
  db : Database;
  group_context : gmap str (list str)
}.

(** What [AIMessagingBot()] builds on a first start. *)
Definition new_bot : AIMessagingBot := {| db := init_db; group_context := ∅ |}.

(** The part of a Telegram update the handlers read: [context.args] for a
    command, the message text otherwise. *)
Record Update := {
  chat_id : Z;
  message_id : Z;
  message_text : str;
  args : list str
}.

(** What [set_reminder] reads from its surroundings: the two readings of
    [datetime.now()], in program order, and the SQLite failure, if any,
    that [store_reminder] meets. *)
Record Host := {
  fault : option StorageFault;
  now_at_check : datetime;
  now_at_schedule : datetime
}.

Definition PENDING : str := lit "Pending admin response".

(** Python truthiness of an optional string: [None] and the empty string
    are false. *)
Definition truthy (o : option str) : bool :=
  match o with
  | Some (_ :: _) => true
  | _ => false
  end.

(** [str(update.message.chat_id)] *)
Definition group_of (chat : Z) : str := lit (pretty chat).

Section Handlers.
Context {U : Unicode} {P : Pipeline}.

(** The question branch of [handle_message]: look the question up,
    answer on a truthy result, otherwise ask to clarify and store the
    question as pending. The first component is the answer delivered. *)
Definition handle_question (group q : str) (d : Database)
    : option str * (Database * Effects) :=
  let '(answer, d1) := get_faq_answer group q d in
  if truthy answer
  then (answer,
        (d1, reply_text ([129302%N] ++ lit " Auto-Answer: "
                         ++ default [] answer)))
  else (None,
        (store_faq group q PENDING d1,
         reply_text (lit "Could you clarify or provide more details about '"
                     ++ q ++ lit "'?"))).

(** [handle_message] *)
Definition handle_message (bot : AIMessagingBot) (u : Update)
    : AIMessagingBot * Effects :=
  let group := group_of (chat_id u) in
  let msg := message_text u in
  let '(d1, e1) :=
    if detect_relevance msg
    then (store_important_message group (message_id u) msg (db bot),
          reply_text ([128226%N] ++ lit " [Important] " ++ msg))
    else (db bot, no_effect) in
  let question := extract_question msg in
  let '(d2, e2) :=
    if truthy question
    then (handle_question group (default [] question) d1).2
    else (d1, no_effect) in
  let appended := default [] (group_context bot !! group) ++ [msg] in
  let kept :=
    if (100 <? length appended)%nat then drop 1 appended else appended in
  ({| db := d2; group_context := <[group := kept]> (group_context bot) |},
   e1 +> e2).

(** [add_faq] *)
Definition add_faq (bot : AIMessagingBot) (u : Update)
    : AIMessagingBot * Effects :=
  let group := group_of (chat_id u) in
  match split 124%N (join (lit " ") (args u)) with
  | [q; a] =>
      ({| db := store_faq group (strip q) (strip a) (db bot);
          group_context := group_context bot |},
       reply_text (lit "FAQ added: " ++ q ++ lit " -> " ++ a))
  | _ => (bot, reply_text (lit "Usage: /addfaq question | answer"))
  end.

(** The body of [set_reminder] once the arguments are unpacked: parse,
    compare with the clock, store, acknowledge, schedule. *)
Definition request_reminder (h : Host) (chat : Z) (message_id : Z)
    (content time_str : str) (d : Database) : Database * Effects :=
  match strptime time_str with
  | None =>
      (d, log_error ValueErrorInSetReminder
          +> reply_text (lit "Invalid format. Use: /setreminder message | YYYY-MM-DD HH:MM"))
  | Some when =>
      if datetime_lt when (now_at_check h)
      then (d, reply_text (lit "Reminder time must be in the future."))
      else
        match store_reminder (fault h) (group_of chat) message_id content
                when d with
        | ((d1, e1), Some UnboundLocalError) =>
            (d1, e1 +> log_error ErrorInSetReminder
                 +> reply_text (lit "Failed to set reminder."))
        | ((d1, e1), None) =>
            (d1, e1
                 +> reply_text (lit "Reminder set for '" ++ content
                                ++ lit "' at " ++ time_str)
                 +> create_task
                      {| task_chat := chat; task_content := content;
                         task_delay :=
                           delay_between when (now_at_schedule h) |})
        end
  end.

(** [set_reminder] *)
Definition set_reminder (h : Host) (bot : AIMessagingBot) (u : Update)
    : AIMessagingBot * Effects :=
  match split 124%N (join (lit " ") (args u)) with
  | [content; time_str] =>
      let '(d, e) :=
        request_reminder h (chat_id u) (message_id u)
          (strip content) (strip time_str) (db bot) in
      ({| db := d; group_context := group_context bot |}, e)
  | _ =>
      (bot, reply_text (lit "Usage: /setreminder message | YYYY-MM-DD HH:MM"))
  end.

(** [start] *)
Definition start (bot : AIMessagingBot) : AIMessagingBot * Effects :=
  (bot, reply_text (lit "Hi! I'm an AI messaging assistant. I filter important messages, answer FAQs, and provide recommendations.")).

(** The updates the application routes, as registered in [main]. *)
Inductive Event :=
| Start
| AddFaq (u : Update)
| SetReminder (h : Host) (u : Update)
| Message (u : Update).

Definition dispatch (bot : AIMessagingBot) (ev : Event)
    : AIMessagingBot * Effects :=
  match ev with
  | Start => start bot
  | AddFaq u => add_faq bot u
  | SetReminder h u => set_reminder h bot u
  | Message u => handle_message bot u
  end.

(** The bot after a sequence of updates, handled one at a time. *)
Definition run (bot : AIMessagingBot) (evs : list Event) : AIMessagingBot :=
  foldl (fun b ev => (dispatch b ev).1) bot evs.
End Handlers.

(** ** Sample inputs *)

Definition venue_db : Database :=
  store_faq (lit "42") (lit "what is the venue") (lit "Building 5") init_db.

(** Two registrations of one question, in different case. *)
Definition duplicate_db : Database :=
  store_faq (lit "42") (lit "venue?") (lit "Hall B")
    (store_faq (lit "42") (lit "Venue?") (lit "Hall A") init_db).

(** The columns of a knowledge row that no statement of the program ever
    rewrites. *)
Definition columns (row : FAQEntry) : str * str * str :=
  (group_id row, question row, answer row).

(** An admin registers an answer for "where is lunch?" in chat 42, then a
    member asks again. *)
Definition lunch_events : list Event :=
  [ AddFaq {| chat_id := 42; message_id := 8; message_text := [];
              args := lit <$> ["where"; "is"; "lunch?"; "|"; "Room"; "2"]%string |};
    Message {| chat_id := 42; message_id := 9;
               message_text := lit "where is lunch?"; args := [] |} ].

(** The test of [extract_question] in the words of its description: the
    sentence contains a literal "?" or a token whose lemma is one of
    what, how, when, where, why. *)
Definition qualifies (sent : Span) : Prop :=
  (exists a b, text sent = a ++ lit "?" ++ b)
  ∨ (exists token, token ∈ tokens sent
       ∧ lemma_ token ∈ lit <$> ["what"; "how"; "when"; "where"; "why"]%string).

Definition lower_letter (c : char) : bool := (97 <=? c)%N && (c <=? 122)%N.

(** "É?" registered with the answer "Paris". *)
Definition accented_db : Database :=
  store_faq (lit "42") [201%N; 63%N] (lit "Paris") init_db.

(** "/addfaq why |": a registration with an empty answer. *)
Definition unanswered_db : Database :=
  store_faq (lit "42") (lit "why") [] init_db.

(** [bot.group_context[group_id]], read. *)
Definition context_of (bot : AIMessagingBot) (group : str) : list str :=
  default [] (group_context bot !! group).

(** A chat whose buffer already holds 100 messages. *)
Definition full_bot : AIMessagingBot :=
  {| db := init_db;
     group_context := {[ group_of 42 := (fun n => lit (pretty n)) <$> seq 0 100 ]} |}.

Definition hello : Update :=
  {| chat_id := 42; message_id := 100; message_text := lit "hello";
     args := [] |}.

(** 2025-01-05 07:00:00 sharp, and the clock 150 microseconds later. *)
Definition seven_sharp : datetime :=
  {| year := 2025; month := 1; day := 5; hour := 7; minute := 0;
     second := 0; microsecond := 0 |}.

Definition just_after_seven : datetime :=
  {| year := 2025; month := 1; day := 5; hour := 7; minute := 0;
     second := 0; microsecond := 150 |}.

(** [set_reminder] entered at 07:00:00 sharp, with a working database. *)
Definition on_the_minute : Host :=
  {| fault := None; now_at_check := seven_sharp;
     now_at_schedule := just_after_seven |}.

(** [set_reminder] entered the evening before, with a commit that fails. *)
Definition failing_commit : Host :=
  {| fault := Some CommitFails;
     now_at_check := {| year := 2025; month := 1; day := 4; hour := 21;
                        minute := 30; second := 12; microsecond := 480 |};
     now_at_schedule := {| year := 2025; month := 1; day := 4; hour := 21;
                           minute := 30; second := 12; microsecond := 990 |} |}.

(** [set_reminder] entered the evening before, when the database file
    cannot be opened. *)
Definition failing_connect : Host :=
  {| fault := Some ConnectFails;
     now_at_check := {| year := 2025; month := 1; day := 4; hour := 21;
                        minute := 30; second := 12; microsecond := 480 |};
     now_at_schedule := {| year := 2025; month := 1; day := 4; hour := 21;
                           minute := 30; second := 12; microsecond := 990 |} |}.

(** "café?" registered in group 42, after an unrelated question. *)
Definition cafe_db : Database :=
  store_faq (lit "42") [99%N; 97%N; 102%N; 233%N; 63%N] (lit "Terrace")
    venue_db.

(** ** Notions used to state what the handlers keep *)

(** [s.count(d)] for a one-character [d]. *)
Definition count_char (d : char) (s : str) : nat :=
  length (filter (fun c => c = d) s).

(** The last [n] elements of a list. *)
Definition last_n {A} (n : nat) (l : list A) : list A :=
  drop (length l - n) l.

(** The texts of the plain messages of one group among the updates, in
    the order of arrival. *)
Definition texts_for (group : str) (evs : list Event) : list str :=
  omap (fun ev =>
          match ev with
          | Message u =>
              if bool_decide (group_of (chat_id u) = group)
              then Some (message_text u) else None
          | _ => None
          end) evs.

(** The update comes from the given chat ([/start] touches no chat's
    data). *)
Definition concerns (ev : Event) (chat : Z) : Prop :=
  match ev with
  | Start => False
  | AddFaq u | SetReminder _ u | Message u => chat_id u = chat
  end.

(** A date and time that [datetime] can hold. *)
Definition valid_datetime (t : datetime) : Prop :=
  1 <= year t <= 9999
  ∧ 1 <= month t <= 12
  ∧ 1 <= day t <= days_in_month (year t) (month t)
  ∧ 0 <= hour t < 24
  ∧ 0 <= minute t < 60
  ∧ 0 <= second t < 60
  ∧ 0 <= microsecond t < 1000000.

(** The row that [store_important_message] writes for an update. *)
Definition archived (u : Update) : ImportantMessage :=
  {| important_group_id := group_of (chat_id u);
     important_message_id := message_id u;
     important_content := message_text u |}.

(** "/addfaq where is lunch? | Room 2" in chat 42. *)
Definition lunch_faq : Update :=
  {| chat_id := 42; message_id := 8; message_text := [];
     args := lit <$> ["where"; "is"; "lunch?"; "|"; "Room"; "2"]%string |}.

(** "/setreminder team sync | 2025-01-05 07:00" in chat 42. *)
Definition sync_reminder : Update :=
  {| chat_id := 42; message_id := 7; message_text := [];
     args := lit <$> ["team"; "sync"; "|"; "2025-01-05"; "07:00"]%string |}.

(** Every result of a parser satisfies [Q]. *)
Definition yields {A} (p : parser A) (Q : A -> Prop) : Prop :=
  forall s v rest, (v, rest) ∈ p s -> Q v.

(** The row that [store_reminder] writes. *)
Definition reminder_row (chat mid : Z) (content : str) (when : datetime)
    : Reminder :=
  {| reminder_group_id := group_of chat; reminder_message_id := mid;
     reminder_content := content; remind_time := when |}.

(** * Properties *)

(** ** Strings *)

Lemma sql_lower_ascii_agree {U : Unicode} (s : str) :
  forallb is_ascii s = true -> str_lower s = sql_lower s.
Proof. apply str_lower_ascii. Qed.

Lemma truthy_Some (a : str) : a ≠ [] -> truthy (Some a) = true.
Proof. destruct a; [congruence | reflexivity]. Qed.

(** ** The knowledge table *)

Lemma select_none (group lowered : str) (rows : list FAQEntry) :
  (forall row, row ∈ rows -> ¬ matches group lowered row) ->
  select_answer_frequency group lowered rows = [].
Proof.
  unfold select_answer_frequency. induction rows as [|r rows IH]; intros Hno.
  - reflexivity.
  - rewrite filter_cons_False by (apply Hno; left).
    apply IH. intros row Hin. apply Hno. right. exact Hin.
Qed.

Lemma select_app (group lowered : str) (rows more : list FAQEntry) :
  select_answer_frequency group lowered (rows ++ more)
  = select_answer_frequency group lowered rows
    ++ select_answer_frequency group lowered more.
Proof. unfold select_answer_frequency. rewrite filter_app, fmap_app. reflexivity. Qed.

Lemma select_first (group lowered : str) (pre post : list FAQEntry)
    (row : FAQEntry) :
  (forall r, r ∈ pre -> ¬ matches group lowered r) ->
  matches group lowered row ->
  fetchone (select_answer_frequency group lowered (pre ++ row :: post))
  = Some (answer row, frequency row).
Proof.
  intros Hpre Hrow. rewrite select_app, (select_none _ _ pre Hpre).
  unfold select_answer_frequency. rewrite filter_cons_True by exact Hrow.
  reflexivity.
Qed.

(** The oldest matching row exists as soon as some row matches. *)
Lemma oldest_match (group lowered : str) (rows : list FAQEntry)
    (row : FAQEntry) :
  row ∈ rows -> matches group lowered row ->
  exists pre first post,
    rows = pre ++ first :: post
    ∧ (forall r, r ∈ pre -> ¬ matches group lowered r)
    ∧ matches group lowered first.
Proof.
  induction rows as [|r rows IH]; intros Hin Hm.
  - inversion Hin.
  - destruct (decide (matches group lowered r)) as [Hr|Hr].
    + exists [], r, rows. split; [reflexivity|]. split; [|exact Hr].
      intros x Hx. inversion Hx.
    + assert (row ∈ rows) as Hin'.
      { apply elem_of_cons in Hin as [->|Hin]; [contradiction|exact Hin]. }
      destruct (IH Hin' Hm) as (pre & first & post & -> & Hpre & Hfirst).
      exists (r :: pre), first, post. split; [reflexivity|]. split; [|exact Hfirst].
      intros x [->|Hx]%elem_of_cons; [exact Hr | exact (Hpre x Hx)].
Qed.

(** An [UPDATE] whose [WHERE] clause selects no row changes nothing. *)
Lemma update_frequency_none (freq : Z) (group q : str) (rows : list FAQEntry) :
  (forall row, row ∈ rows -> group_id row = group -> question row ≠ q) ->
  update_frequency freq group q rows = rows.
Proof.
  unfold update_frequency. induction rows as [|r rows IH]; intros Hno.
  - reflexivity.
  - rewrite fmap_cons, IH by (intros row Hin; apply Hno; right; exact Hin).
    rewrite bool_decide_eq_false_2; [reflexivity|].
    intros [Hg Hq]. exact (Hno r ltac:(left) Hg Hq).
Qed.

Lemma with_knowledge_same (d : Database) : with_knowledge (knowledge d) d = d.
Proof. destruct d; reflexivity. Qed.

Lemma get_faq_answer_miss {U : Unicode} (group q : str) (d : Database) :
  (forall row, row ∈ knowledge d -> ¬ matches group (str_lower q) row) ->
  get_faq_answer group q d = (None, d).
Proof.
  intros Hno. unfold get_faq_answer. rewrite select_none by exact Hno.
  reflexivity.
Qed.

Lemma handle_question_miss {U : Unicode} (group q : str) (d : Database) :
  (forall row, row ∈ knowledge d -> ¬ matches group (str_lower q) row) ->
  handle_question group q d
  = (None,
     (store_faq group q PENDING d,
      reply_text (lit "Could you clarify or provide more details about '"
                  ++ q ++ lit "'?"))).
Proof.
  intros Hno. unfold handle_question.
  rewrite get_faq_answer_miss by exact Hno. reflexivity.
Qed.

(** C3. A question that no stored row of the group matches: the handler
    delivers no answer, appends exactly one row, the question with the
    answer "Pending admin response" and frequency 1, and leaves every
    earlier row and the two other tables as they were. *)
Theorem handle_question_miss_registers_pending {U : Unicode}
    (group q : str) (d : Database) :
  (forall row, row ∈ knowledge d -> group_id row = group ->
               sql_lower (question row) ≠ str_lower q) ->
  let after := (handle_question group q d).2.1 in
  (handle_question group q d).1 = None
  ∧ knowledge after
    = knowledge d ++ [ {| group_id := group; question := q;
                          answer := lit "Pending admin response";
                          frequency := 1 |} ]
  ∧ important_messages after = important_messages d
  ∧ reminders after = reminders d.
Proof.
  intros Hno. rewrite handle_question_miss.
  - cbn. repeat split; reflexivity.
  - intros row Hin [Hg Hq]. exact (Hno row Hin Hg Hq).
Qed.

Lemma handle_question_miss_registers_pending_witness :
  let d := venue_db in
  let after := (handle_question (U := latin1) (lit "42") (lit "Where is lunch?") d).2.1 in
  (handle_question (U := latin1) (lit "42") (lit "Where is lunch?") d).1 = None
  ∧ knowledge after
    = knowledge d ++ [ {| group_id := lit "42"; question := lit "Where is lunch?";
                          answer := lit "Pending admin response";
                          frequency := 1 |} ]
  ∧ important_messages after = important_messages d
  ∧ reminders after = reminders d.
Proof.
  apply (handle_question_miss_registers_pending (U := latin1)).
  intros row Hin Hg. vm_compute in Hin.
  apply list_elem_of_singleton in Hin. subst row. vm_compute. discriminate.
Defined.

Lemma get_faq_answer_hit {U : Unicode} (group q : str) (d : Database)
    (pre post : list FAQEntry) (row : FAQEntry) :
  knowledge d = pre ++ row :: post ->
  (forall r, r ∈ pre -> ¬ matches group (str_lower q) r) ->
  matches group (str_lower q) row ->
  get_faq_answer group q d
  = (Some (answer row),
     with_knowledge
       (update_frequency (frequency row + 1) group (answer row) (knowledge d))
       d).
Proof.
  intros Hk Hpre Hrow. unfold get_faq_answer.
  rewrite Hk, select_first by assumption. reflexivity.
Qed.

(** C1. Registering a FAQ and then asking the registered question, in any
    ASCII case, delivers the registered answer, but the database is left
    exactly as the registration left it: the frequency of the row stays 1.
    The [UPDATE] looks for a row whose question equals the answer just
    read and finds none. *)
Theorem register_then_handle_keeps_frequency {U : Unicode}
    (group q q' a : str) (d : Database) :
  forallb is_ascii q' = true ->
  sql_lower q = sql_lower q' ->
  a ≠ [] ->
  q ≠ a ->
  (forall row, row ∈ knowledge d -> group_id row = group ->
               sql_lower (question row) ≠ sql_lower q' ∧ question row ≠ a) ->
  let registered := store_faq group q a d in
  (handle_question group q' registered).1 = Some a
  ∧ (handle_question group q' registered).2.1 = registered
  ∧ knowledge registered
    = knowledge d ++ [ {| group_id := group; question := q; answer := a;
                          frequency := 1 |} ].
Proof.
  intros Hascii Hfold Ha Hqa Hd registered.
  set (row := {| group_id := group; question := q; answer := a; frequency := 1 |}).
  assert (knowledge registered = knowledge d ++ row :: []) as Hk by reflexivity.
  unfold handle_question.
  rewrite (get_faq_answer_hit group q' registered (knowledge d) [] row Hk).
  - cbn [answer frequency row].
    rewrite update_frequency_none, with_knowledge_same, truthy_Some by
      first [ exact Ha
            | intros r Hin Hg; rewrite Hk in Hin;
              apply elem_of_app in Hin as [Hin|Hin];
              [ exact (proj2 (Hd r Hin Hg))
              | apply list_elem_of_singleton in Hin; subst r; exact Hqa ] ].
    repeat split; reflexivity.
  - intros r Hin [Hg Hm]. rewrite sql_lower_ascii_agree in Hm by exact Hascii.
    exact (proj1 (Hd r Hin Hg) Hm).
  - split; [reflexivity|]. rewrite sql_lower_ascii_agree by exact Hascii.
    exact Hfold.
Qed.

Lemma register_then_handle_keeps_frequency_witness :
  (handle_question (U := latin1) (lit "42") (lit "What is the venue") venue_db).1
  = Some (lit "Building 5")
  ∧ (handle_question (U := latin1) (lit "42") (lit "What is the venue") venue_db).2.1
    = venue_db
  ∧ knowledge venue_db
    = [ {| group_id := lit "42"; question := lit "what is the venue";
           answer := lit "Building 5"; frequency := 1 |} ].
Proof.
  apply (register_then_handle_keeps_frequency (U := latin1)
           (lit "42") (lit "what is the venue") (lit "What is the venue")
           (lit "Building 5") init_db).
  - vm_compute. reflexivity.
  - vm_compute. reflexivity.
  - vm_compute. discriminate.
  - vm_compute. discriminate.
  - intros row Hin. vm_compute in Hin. inversion Hin.
Defined.

(** C5, as stated, fails in two ways. With "Venue?" and "venue?" both
    registered in group 42, the query "VENUE?" equals the second stored
    question up to case, yet the lookup returns the answer of the first.
    And a question registered as "É?" is not found by the query "É?":
    [LOWER] leaves the stored "É" while [lower()] turns the query into
    "é?". *)
Lemma lookup_prefers_oldest_and_misses_capital :
  let stored := {| group_id := lit "42"; question := lit "venue?";
                   answer := lit "Hall B"; frequency := 1 |} in
  (stored ∈ knowledge duplicate_db
   ∧ sql_lower (question stored) = sql_lower (lit "VENUE?")
   ∧ (get_faq_answer (U := latin1) (lit "42") (lit "VENUE?") duplicate_db).1
     = Some (lit "Hall A")
   ∧ Some (lit "Hall A") ≠ Some (answer stored))
  ∧ (get_faq_answer (U := latin1) (lit "42") [201%N; 63%N] accented_db).1
    = None.
Proof.
  cbv zeta. split; [split; [|split; [|split]]|].
  - vm_compute. right. left.
  - vm_compute. reflexivity.
  - vm_compute. reflexivity.
  - vm_compute. discriminate.
  - vm_compute. reflexivity.
Qed.

(** C5, amended. Take a stored row of the group whose question SQLite's
    [LOWER] and Python's [lower()] fold alike (every ASCII question does,
    and so does "café?"), and a query with the same lowercase form as
    that question. The lookup is a hit: it returns the answer of the
    oldest row of the group that it matches, which is the answer of the
    given row whenever no older row of the group matches. *)
Theorem lookup_is_case_insensitive {U : Unicode}
    (group query : str) (d : Database) (row : FAQEntry) :
  row ∈ knowledge d ->
  group_id row = group ->
  sql_lower (question row) = str_lower (question row) ->
  str_lower query = str_lower (question row) ->
  (exists pre first post,
      knowledge d = pre ++ first :: post
      ∧ (forall r, r ∈ pre ->
           ¬ (group_id r = group ∧ sql_lower (question r) = str_lower query))
      ∧ group_id first = group
      ∧ sql_lower (question first) = str_lower query
      ∧ (get_faq_answer group query d).1 = Some (answer first))
  ∧ (forall pre post,
        knowledge d = pre ++ row :: post ->
        (forall r, r ∈ pre ->
           ¬ (group_id r = group ∧ sql_lower (question r) = str_lower query)) ->
        (get_faq_answer group query d).1 = Some (answer row)).
Proof.
  intros Hin Hg Hfold Hq.
  assert (matches group (str_lower query) row) as Hrow.
  { split; [exact Hg|]. rewrite Hq. exact Hfold. }
  split.
  - destruct (oldest_match group (str_lower query) (knowledge d) row Hin Hrow)
      as (pre & first & post & Hk & Hpre & Hg' & Hq').
    exists pre, first, post. repeat split; try assumption.
    rewrite (get_faq_answer_hit group query d pre post first Hk Hpre
               (conj Hg' Hq')).
    reflexivity.
  - intros pre post Hk Hpre.
    rewrite (get_faq_answer_hit group query d pre post row Hk Hpre Hrow).
    reflexivity.
Qed.

Lemma lookup_is_case_insensitive_witness :
  exists pre first post,
    knowledge cafe_db = pre ++ first :: post
    ∧ (forall r, r ∈ pre ->
         ¬ (group_id r = lit "42"
            ∧ sql_lower (question r)
              = str_lower (Unicode := latin1)
                  [67%N; 65%N; 70%N; 201%N; 63%N]))
    ∧ group_id first = lit "42"
    ∧ sql_lower (question first)
      = str_lower (Unicode := latin1) [67%N; 65%N; 70%N; 201%N; 63%N]
    ∧ (get_faq_answer (U := latin1) (lit "42")
         [67%N; 65%N; 70%N; 201%N; 63%N] cafe_db).1
      = Some (answer first).
Proof.
  apply (lookup_is_case_insensitive (U := latin1) (lit "42")
           [67%N; 65%N; 70%N; 201%N; 63%N] cafe_db
           {| group_id := lit "42";
              question := [99%N; 97%N; 102%N; 233%N; 63%N];
              answer := lit "Terrace"; frequency := 1 |}).
  - vm_compute. right. left.
  - vm_compute. reflexivity.
  - vm_compute. reflexivity.
  - vm_compute. reflexivity.
Defined.

(** For ASCII strings the two folds agree, and equality of the lowercase
    forms is equality up to the case of the letters. *)
Lemma ascii_questions_fold_alike {U : Unicode} (q query : str) :
  forallb is_ascii q = true -> forallb is_ascii query = true ->
  sql_lower q = sql_lower query ->
  sql_lower q = str_lower q ∧ str_lower query = str_lower q.
Proof.
  intros Hq Hquery Heq.
  rewrite !sql_lower_ascii_agree by assumption. split; congruence.
Qed.

(** ** The knowledge table only grows

    Rows are appended, and the only column ever rewritten is the
    frequency: the other columns of the old table are a prefix of those of
    the new one. *)

Lemma update_frequency_columns (freq : Z) (group q : str) (rows : list FAQEntry) :
  columns <$> update_frequency freq group q rows = columns <$> rows.
Proof.
  unfold update_frequency. rewrite <- list_fmap_compose.
  apply list_fmap_ext. intros _ row _. cbn. case_bool_decide; reflexivity.
Qed.

Lemma get_faq_answer_columns {U : Unicode} (group q : str) (d : Database) :
  columns <$> knowledge (get_faq_answer group q d).2 = columns <$> knowledge d.
Proof.
  unfold get_faq_answer.
  destruct (fetchone _) as [[a f]|]; [|reflexivity].
  cbn. apply update_frequency_columns.
Qed.

Lemma handle_question_columns {U : Unicode} (group q : str) (d : Database) :
  columns <$> knowledge d `prefix_of`
  columns <$> knowledge (handle_question group q d).2.1.
Proof.
  unfold handle_question.
  pose proof (get_faq_answer_columns group q d) as Hc.
  destruct (get_faq_answer group q d) as [a d1]. cbn in Hc.
  destruct (truthy a); cbn.
  - rewrite Hc. reflexivity.
  - rewrite fmap_app, Hc. apply prefix_app_r. reflexivity.
Qed.

Lemma store_reminder_knowledge (f : option StorageFault) (group : str)
    (mid : Z) (content : str) (when : datetime) (d : Database) :
  knowledge (store_reminder f group mid content when d).1.1 = knowledge d.
Proof. destruct f as [[]|]; reflexivity. Qed.

Lemma request_reminder_knowledge {U : Unicode} (h : Host) (chat mid : Z)
    (content time_str : str) (d : Database) :
  knowledge (request_reminder h chat mid content time_str d).1 = knowledge d.
Proof.
  unfold request_reminder.
  destruct (strptime time_str) as [when|]; [|reflexivity].
  destruct (datetime_lt when (now_at_check h)); [reflexivity|].
  pose proof (store_reminder_knowledge (fault h) (group_of chat) mid content
                when d) as Hk.
  destruct (store_reminder _ _ _ _ _ _) as [[d1 e1] [[]|]]; exact Hk.
Qed.

Lemma dispatch_columns {U : Unicode} {P : Pipeline} (bot : AIMessagingBot)
    (ev : Event) :
  columns <$> knowledge (db bot) `prefix_of`
  columns <$> knowledge (db (dispatch bot ev).1).
Proof.
  destruct ev as [|u|h u|u]; cbn [dispatch].
  - reflexivity.
  - unfold add_faq. destruct (split _ _) as [|q [|a [|x l]]]; cbn; try reflexivity.
    rewrite fmap_app. apply prefix_app_r. reflexivity.
  - unfold set_reminder. destruct (split _ _) as [|c [|t [|x l]]]; cbn; try reflexivity.
    pose proof (request_reminder_knowledge h (chat_id u) (message_id u)
                  (strip c) (strip t) (db bot)) as Hk.
    destruct (request_reminder _ _ _ _ _ _) as [d e]. cbn in *.
    rewrite Hk. reflexivity.
  - unfold handle_message.
    destruct (detect_relevance (message_text u)); cbn;
      (destruct (truthy (extract_question (message_text u))); cbn;
       [|reflexivity]).
    + pose proof (handle_question_columns (group_of (chat_id u))
                    (default [] (extract_question (message_text u)))
                    (store_important_message (group_of (chat_id u))
                       (message_id u) (message_text u) (db bot))) as Hc.
      destruct (handle_question _ _ _) as [r [d e]]. exact Hc.
    + pose proof (handle_question_columns (group_of (chat_id u))
                    (default [] (extract_question (message_text u)))
                    (db bot)) as Hc.
      destruct (handle_question _ _ _) as [r [d e]]. exact Hc.
Qed.

Lemma run_columns {U : Unicode} {P : Pipeline} (evs : list Event)
    (bot : AIMessagingBot) :
  columns <$> knowledge (db bot) `prefix_of`
  columns <$> knowledge (db (run bot evs)).
Proof.
  revert bot. induction evs as [|ev evs IH]; intros bot.
  - reflexivity.
  - cbn. etrans; [apply (dispatch_columns bot ev) | apply IH].
Qed.

(** The oldest match keeps its answer while the table grows. *)
Lemma fetchone_grows (group lowered : str) (old new : list FAQEntry)
    (a : str) (f : Z) :
  columns <$> old `prefix_of` columns <$> new ->
  fetchone (select_answer_frequency group lowered old) = Some (a, f) ->
  exists f', fetchone (select_answer_frequency group lowered new) = Some (a, f').
Proof.
  revert new. induction old as [|r old IH]; intros new [more Hnew] Hhit.
  - discriminate Hhit.
  - destruct new as [|r' new]; [discriminate Hnew|].
    rewrite !fmap_cons in Hnew. cbn [app] in Hnew.
    injection Hnew as Hg Hq Ha Hrest.
    unfold select_answer_frequency in *.
    destruct (decide (matches group lowered r)) as [Hm|Hm].
    + rewrite filter_cons_True in Hhit by exact Hm.
      rewrite filter_cons_True by (destruct Hm; split; congruence).
      cbn in *. injection Hhit as <- _. exists (frequency r'). congruence.
    + rewrite filter_cons_False in Hhit by exact Hm.
      rewrite filter_cons_False
        by (intros [? ?]; apply Hm; split; congruence).
      apply IH; [exists more; exact Hrest | exact Hhit].
Qed.

Lemma handle_question_delivers {U : Unicode} (group q : str) (d : Database)
    (a : str) (f : Z) :
  fetchone (select_answer_frequency group (str_lower q) (knowledge d))
  = Some (a, f) ->
  a ≠ [] ->
  (handle_question group q d).1 = Some a.
Proof.
  intros Hhit Ha. unfold handle_question, get_faq_answer.
  rewrite Hhit. destruct a as [|c a]; [congruence | reflexivity].
Qed.

(** C10, as stated, fails in two ways. A question with a capital outside
    ASCII: "É?" is stored as typed, [LOWER] leaves the "É", [lower()]
    turns the query into "é?", and the second, identical question finds
    nothing again. And a question whose stored answer is the empty
    string: the lookup finds the row, [if answer:] is false, the handler
    asks to clarify and registers the pending row, and so it does again
    at the next identical question, the empty answer still being the
    oldest match. *)
Lemma pending_row_is_not_served :
  (let q := [201%N; 63%N] in
   let first := handle_question (U := latin1) (lit "42") q init_db in
   first.1 = None
   ∧ knowledge first.2.1
     = [ {| group_id := lit "42"; question := q; answer := PENDING;
            frequency := 1 |} ]
   ∧ (handle_question (U := latin1) (lit "42") q first.2.1).1 = None)
  ∧ (let first := handle_question (U := latin1) (lit "42") (lit "why")
                    unanswered_db in
     first.1 = None
     ∧ knowledge first.2.1
       = knowledge unanswered_db
         ++ [ {| group_id := lit "42"; question := lit "why";
                 answer := PENDING; frequency := 1 |} ]
     ∧ (handle_question (U := latin1) (lit "42") (lit "why") first.2.1).1
       = None).
Proof. vm_compute. repeat split; reflexivity. Qed.

(** C10, amended. After a lookup that finds no row for the question and
    registers it as pending, every later question of the same group with
    the same lowercase form is answered with the literal "Pending admin
    response", whatever updates are handled in between (a later
    registration of an answer included), provided SQLite's [LOWER] and
    Python's [lower()] agree on the first question, as they do on every
    ASCII string. *)
Theorem pending_answer_is_served {U : Unicode} {P : Pipeline}
    (group q q' : str) (bot : AIMessagingBot) (evs : list Event) :
  (forall row, row ∈ knowledge (db bot) -> group_id row = group ->
               sql_lower (question row) ≠ str_lower q) ->
  sql_lower q = str_lower q ->
  str_lower q' = str_lower q ->
  let missed := {| db := (handle_question group q (db bot)).2.1;
                   group_context := group_context bot |} in
  (handle_question group q (db bot)).1 = None
  ∧ (handle_question group q' (db (run missed evs))).1
    = Some (lit "Pending admin response").
Proof.
  intros Hno Hfold Hsame missed.
  assert (handle_question group q (db bot)
          = (None,
             (store_faq group q PENDING (db bot),
              reply_text
                (lit "Could you clarify or provide more details about '"
                 ++ q ++ lit "'?")))) as Hmiss.
  { apply handle_question_miss. intros row Hin [Hg Hq].
    exact (Hno row Hin Hg Hq). }
  split; [rewrite Hmiss; reflexivity|].
  assert (fetchone (select_answer_frequency group (str_lower q')
                      (knowledge (db missed))) = Some (PENDING, 1)) as Hhit.
  { subst missed. rewrite Hmiss. cbn [db fst snd store_faq with_knowledge knowledge].
    apply (select_first group (str_lower q') (knowledge (db bot)) []).
    - intros r Hin [Hg Hm]. rewrite Hsame in Hm. exact (Hno r Hin Hg Hm).
    - split; [reflexivity|]. cbn. rewrite Hsame. exact Hfold. }
  destruct (fetchone_grows group (str_lower q') _ _ _ _
              (run_columns evs missed) Hhit) as [f' Hhit'].
  apply (handle_question_delivers group q' _ PENDING f' Hhit').
  vm_compute. discriminate.
Qed.

Lemma pending_answer_is_served_witness :
  let missed := {| db := (handle_question (U := latin1) (lit "42")
                            (lit "where is lunch?") init_db).2.1;
                   group_context := ∅ |} in
  (handle_question (U := latin1) (lit "42") (lit "where is lunch?") init_db).1
  = None
  ∧ (handle_question (U := latin1) (lit "42") (lit "Where is LUNCH?")
       (db (run (U := latin1) (P := whitespace_pipeline) missed
              lunch_events))).1
    = Some (lit "Pending admin response").
Proof.
  apply (pending_answer_is_served (U := latin1) (P := whitespace_pipeline)
           (lit "42") (lit "where is lunch?") (lit "Where is LUNCH?")
           new_bot lunch_events).
  - intros row Hin. vm_compute in Hin. inversion Hin.
  - vm_compute. reflexivity.
  - vm_compute. reflexivity.
Defined.

(** ** The relevance classifier *)

Lemma prefixb_app (k rest : str) : prefixb k (k ++ rest) = true.
Proof.
  induction k as [|c k IH]; [reflexivity|].
  cbn. rewrite N.eqb_refl. exact IH.
Qed.

Lemma prefixb_true (k s : str) : prefixb k s = true -> exists rest, s = k ++ rest.
Proof.
  revert s. induction k as [|c k IH]; intros s H.
  - exists s. reflexivity.
  - destruct s as [|b s]; [discriminate|]. cbn in H.
    apply andb_prop in H as [Hc Hk]. apply N.eqb_eq in Hc. subst b.
    destruct (IH s Hk) as [rest ->]. exists rest. reflexivity.
Qed.

Lemma is_word_lower_letter {U : Unicode} (c : char) :
  lower_letter c = true -> is_word c = true.
Proof.
  unfold lower_letter, is_word. intros [Hlo Hhi]%andb_prop.
  apply N.leb_le in Hlo, Hhi.
  rewrite isalnum_ascii by (apply N.ltb_lt; lia).
  unfold ascii_alnum.
  replace (97 <=? c)%N with true by (symmetry; apply N.leb_le; lia).
  replace (c <=? 122)%N with true by (symmetry; apply N.leb_le; lia).
  rewrite !orb_true_r. reflexivity.
Qed.

(** Every keyword sits in one of the two patterns, and begins and ends
    with a lowercase ASCII letter. *)
Lemma keyword_shape (kw : str) :
  kw ∈ concat IMPORTANT_KEYWORDS ->
  exists pattern first final,
    In pattern IMPORTANT_KEYWORDS ∧ In kw pattern
    ∧ head kw = Some first ∧ lower_letter first = true
    ∧ last kw = Some final ∧ lower_letter final = true.
Proof.
  intros Hkw. apply list_elem_of_In in Hkw. vm_compute in Hkw.
  repeat (destruct Hkw as [<-|Hkw];
          [ first
              [ exists (nth 0 IMPORTANT_KEYWORDS []); eexists _, _; vm_compute;
                split; [tauto|]; split; [tauto|]; repeat split; reflexivity
              | exists (nth 1 IMPORTANT_KEYWORDS []); eexists _, _; vm_compute;
                split; [tauto|]; split; [tauto|]; repeat split; reflexivity ]
          | ]).
  destruct Hkw.
Qed.

Lemma boundary_before_word {U : Unicode} (pre w rest : str) (c : char) :
  head w = Some c -> is_word c = true ->
  (forall b, last pre = Some b -> is_word b = false) ->
  boundary (pre ++ w ++ rest) (length pre) = true.
Proof.
  intros Hc Hw Hpre. unfold boundary.
  assert (word_at (pre ++ w ++ rest) (length pre) = true) as ->.
  { unfold word_at. rewrite lookup_app_r by lia.
    replace (length pre - length pre)%nat with 0%nat by lia.
    destruct w as [|x w]; [discriminate|]. injection Hc as ->. exact Hw. }
  destruct (length pre) as [|j] eqn:Hlen; [reflexivity|].
  unfold word_at. rewrite lookup_app_l by lia.
  rewrite last_lookup, Hlen in Hpre. cbn in Hpre.
  destruct (pre !! j) as [b|]; [|reflexivity].
  rewrite (Hpre b eq_refl). reflexivity.
Qed.

Lemma boundary_after_word {U : Unicode} (pre w rest : str) (c : char) :
  last w = Some c -> is_word c = true ->
  (forall b, head rest = Some b -> is_word b = false) ->
  boundary (pre ++ w ++ rest) (length pre + length w) = true.
Proof.
  intros Hc Hw Hrest. unfold boundary.
  assert (word_at (pre ++ w ++ rest) (length pre + length w) = false) as ->.
  { unfold word_at. rewrite app_assoc, lookup_app_r by (rewrite length_app; lia).
    rewrite length_app.
    replace (length pre + length w - (length pre + length w))%nat
      with 0%nat by lia.
    destruct rest as [|b rest]; [reflexivity|]. exact (Hrest b eq_refl). }
  rewrite last_lookup in Hc.
  destruct w as [|x w]; [discriminate|]. cbn [length] in *.
  replace (length pre + S (length w))%nat with (S (length pre + length w))
    by lia.
  unfold word_at. rewrite lookup_app_r by lia.
  replace (length pre + length w - length pre)%nat with (length w) by lia.
  rewrite lookup_app_l by (cbn; lia).
  cbn [pred] in Hc. rewrite Hc, Hw. reflexivity.
Qed.

Lemma re_search_word {U : Unicode} (alts : list str) (pre kw post : str)
    (first final : char) :
  In kw alts ->
  head kw = Some first -> is_word first = true ->
  last kw = Some final -> is_word final = true ->
  (forall b, last pre = Some b -> is_word b = false) ->
  (forall b, head post = Some b -> is_word b = false) ->
  re_search alts (pre ++ kw ++ post) = true.
Proof.
  intros Hin Hf Hfw Hl Hlw Hpre Hpost. unfold re_search.
  apply existsb_exists. exists (length pre). split.
  - apply in_seq. rewrite !length_app. lia.
  - unfold match_at.
    rewrite (boundary_before_word pre kw post first Hf Hfw Hpre). cbn [andb].
    apply existsb_exists. exists kw. split; [exact Hin|].
    rewrite drop_app_length, prefixb_app.
    exact (boundary_after_word pre kw post final Hl Hlw Hpost).
Qed.

Lemma some_pattern_matches {U : Unicode} (pre kw post : str) :
  kw ∈ concat IMPORTANT_KEYWORDS ->
  (forall c, last pre = Some c -> is_word c = false) ->
  (forall c, head post = Some c -> is_word c = false) ->
  existsb (fun pattern => re_search pattern (pre ++ kw ++ post))
          IMPORTANT_KEYWORDS = true.
Proof.
  intros Hkw Hpre Hpost.
  destruct (keyword_shape kw Hkw)
    as (pattern & first & final & Hpat & Hin & Hf & Hfl & Hl & Hll).
  apply existsb_exists. exists pattern. split; [exact Hpat|].
  apply (re_search_word pattern pre kw post first final); try assumption;
    apply is_word_lower_letter; assumption.
Qed.

(** C7, as stated, fails when the keyword is only part of a word:
    "updated" contains "date", the patterns ask for word boundaries, and
    with a recognizer that finds no entity the message is not important. *)
Lemma substring_keyword_not_important :
  lit "date" ∈ concat IMPORTANT_KEYWORDS
  ∧ lit "updated" = lit "up" ++ lit "date" ++ lit "d"
  ∧ detect_relevance (U := latin1) (P := blank_pipeline) (lit "updated")
    = false.
Proof.
  split; [|split].
  - apply list_elem_of_In. vm_compute. tauto.
  - vm_compute. reflexivity.
  - vm_compute. reflexivity.
Qed.

(** C7, amended. A message is important whenever its lowercase form (the
    only form the classifier looks at, so the case of the message does not
    matter) contains one of the ten keywords as a whole word: not preceded
    and not followed by a letter, a digit or an underscore. The entity
    recognizer is not consulted for the verdict. *)
Theorem keyword_as_word_is_important {U : Unicode} {P : Pipeline}
    (msg pre kw post : str) :
  kw ∈ concat IMPORTANT_KEYWORDS ->
  str_lower msg = pre ++ kw ++ post ->
  (forall c, last pre = Some c -> is_word c = false) ->
  (forall c, head post = Some c -> is_word c = false) ->
  detect_relevance msg = true.
Proof.
  intros Hkw Hmsg Hpre Hpost.
  unfold detect_relevance. apply orb_true_iff. left.
  rewrite Hmsg. apply some_pattern_matches; assumption.
Qed.

Lemma keyword_as_word_is_important_witness :
  detect_relevance (U := latin1) (P := blank_pipeline)
    (lit "The DEADLINE, folks") = true.
Proof.
  apply (keyword_as_word_is_important (U := latin1) (P := blank_pipeline)
           (lit "The DEADLINE, folks") (lit "the ") (lit "deadline")
           (lit ", folks")).
  - apply list_elem_of_In. vm_compute. tauto.
  - vm_compute. reflexivity.
  - intros c Hc. vm_compute in Hc. injection Hc as <-. vm_compute. reflexivity.
  - intros c Hc. vm_compute in Hc. injection Hc as <-. vm_compute. reflexivity.
Defined.

Lemma is_word_ascii_lower {U : Unicode} (c : char) :
  is_ascii c = true -> is_word c = false -> is_word (ascii_lower c) = false.
Proof.
  intros Hc Hw. unfold ascii_lower.
  destruct (ascii_upper c) eqn:Hup; [|exact Hw].
  unfold is_word in Hw. rewrite isalnum_ascii in Hw by exact Hc.
  unfold ascii_alnum in Hw. unfold ascii_upper in Hup. rewrite Hup in Hw.
  rewrite orb_true_r in Hw. discriminate.
Qed.

(** In an ASCII message the keyword may be written in any case. *)
Lemma keyword_in_any_case_is_important {U : Unicode} {P : Pipeline}
    (msg pre w post : str) :
  forallb is_ascii msg = true ->
  msg = pre ++ w ++ post ->
  sql_lower w ∈ concat IMPORTANT_KEYWORDS ->
  (forall c, last pre = Some c -> is_word c = false) ->
  (forall c, head post = Some c -> is_word c = false) ->
  detect_relevance msg = true.
Proof.
  intros Hascii -> Hkw Hpre Hpost.
  unfold detect_relevance. apply orb_true_iff. left.
  rewrite str_lower_ascii by exact Hascii. rewrite !fmap_app.
  assert (forall c, c ∈ pre ++ w ++ post -> is_ascii c = true) as Hall.
  { intros c Hc. apply list_elem_of_In in Hc.
    exact (proj1 (forallb_forall _ _) Hascii c Hc). }
  apply some_pattern_matches; [exact Hkw | |].
  - intros c. rewrite fmap_last. destruct (last pre) as [b|] eqn:Hb; [|discriminate].
    intros [= <-]. apply is_word_ascii_lower; [|exact (Hpre b eq_refl)].
    apply Hall, elem_of_app. left. exact (last_Some_elem_of _ _ Hb).
  - intros c. destruct post as [|b post]; [discriminate|].
    intros [= <-]. apply is_word_ascii_lower; [|exact (Hpost b eq_refl)].
    apply Hall. rewrite !elem_of_app. right. right. left.
Qed.

(** ** The question extractor *)

Lemma contains_true (needle s : str) :
  contains needle s = true <-> exists a b, s = a ++ needle ++ b.
Proof.
  split.
  - induction s as [|c s IH]; cbn.
    + rewrite orb_false_r. intros [rest ->]%prefixb_true.
      exists [], rest. reflexivity.
    + intros [Hp|Hc]%orb_true_iff.
      * apply prefixb_true in Hp as [rest ->]. exists [], rest. reflexivity.
      * destruct (IH Hc) as (a & b & ->). exists (c :: a), b. reflexivity.
  - intros (a & b & ->). induction a as [|c a IH].
    + cbn [app]. destruct (needle ++ b) eqn:E;
        cbn; rewrite <- ?E, prefixb_app; reflexivity.
    + cbn. rewrite IH. apply orb_true_r.
Qed.

Lemma looks_like_question_iff (sent : Span) :
  looks_like_question sent = true <-> qualifies sent.
Proof.
  unfold looks_like_question, qualifies.
  rewrite orb_true_iff, contains_true, existsb_exists.
  split; (intros [H|(token & Hin & Hl)]; [left; exact H | right]);
    exists token.
  - apply list_elem_of_In in Hin. apply bool_decide_eq_true in Hl.
    split; assumption.
  - split; [apply list_elem_of_In; exact Hin|].
    apply bool_decide_eq_true. exact Hl.
Qed.

Lemma find_first {A} (f : A -> bool) (l : list A) :
  match find f l with
  | Some x => exists pre post,
      l = pre ++ x :: post ∧ (forall y, y ∈ pre -> f y = false) ∧ f x = true
  | None => forall y, y ∈ l -> f y = false
  end.
Proof.
  induction l as [|a l IH]; cbn.
  - intros y Hy. inversion Hy.
  - destruct (f a) eqn:Ha.
    + exists [], l. split; [reflexivity|]. split; [|exact Ha].
      intros y Hy. inversion Hy.
    + destruct (find f l) as [x|].
      * destruct IH as (pre & post & -> & Hpre & Hx).
        exists (a :: pre), post. split; [reflexivity|]. split; [|exact Hx].
        intros y [->|Hy]%elem_of_cons; [exact Ha | exact (Hpre y Hy)].
      * intros y [->|Hy]%elem_of_cons; [exact Ha | exact (IH y Hy)].
Qed.

(** C8. [extract_question] returns the text (stripped of surrounding
    whitespace) of the first sentence, in the order of the segmenter, that
    contains a "?" or a token whose lemma is what, how, when, where or
    why: no sentence before the one returned qualifies; and it returns
    nothing exactly when no sentence qualifies. *)
Theorem extract_question_first_qualifying {P : Pipeline} (msg : str) :
  match extract_question msg with
  | Some found =>
      exists pre sent post,
        sents (nlp msg) = pre ++ sent :: post
        ∧ (forall s, s ∈ pre -> ¬ qualifies s)
        ∧ qualifies sent
        ∧ found = strip (text sent)
  | None => forall s, s ∈ sents (nlp msg) -> ¬ qualifies s
  end.
Proof.
  unfold extract_question.
  pose proof (find_first looks_like_question (sents (nlp msg))) as H.
  destruct (find looks_like_question (sents (nlp msg))) as [sent|].
  - destruct H as (pre & post & Hs & Hpre & Hsent).
    exists pre, sent, post. split; [exact Hs|]. split; [|split].
    + intros s Hin Hq. apply looks_like_question_iff in Hq.
      rewrite (Hpre s Hin) in Hq. discriminate.
    + apply looks_like_question_iff. exact Hsent.
    + reflexivity.
  - intros s Hin Hq. apply looks_like_question_iff in Hq.
    rewrite (H s Hin) in Hq. discriminate.
Qed.

Lemma extract_question_first_qualifying_witness :
  exists pre sent post,
    sents (nlp (Pipeline := whitespace_pipeline) (lit " so why not ")) = pre ++ sent :: post
    ∧ (forall s, s ∈ pre -> ¬ qualifies s)
    ∧ qualifies sent
    ∧ lit "so why not" = strip (text sent).
Proof.
  exact (extract_question_first_qualifying (P := whitespace_pipeline)
           (lit " so why not ")).
Defined.

(** ** The context buffer *)

Lemma handle_message_context {U : Unicode} {P : Pipeline}
    (bot : AIMessagingBot) (u : Update) :
  group_context (handle_message bot u).1
  = <[ group_of (chat_id u) :=
         if (100 <? length (context_of bot (group_of (chat_id u))
                            ++ [message_text u]))%nat
         then drop 1 (context_of bot (group_of (chat_id u))
                      ++ [message_text u])
         else context_of bot (group_of (chat_id u)) ++ [message_text u] ]>
      (group_context bot).
Proof.
  unfold handle_message.
  destruct (detect_relevance (message_text u));
    destruct (truthy (extract_question (message_text u)));
    try destruct (handle_question _ _ _) as [r [d e]]; reflexivity.
Qed.

Lemma dispatch_context_bounded {U : Unicode} {P : Pipeline}
    (bot : AIMessagingBot) (ev : Event) :
  (forall g, (length (context_of bot g) <= 100)%nat) ->
  forall g, (length (context_of (dispatch bot ev).1 g) <= 100)%nat.
Proof.
  intros Hb g. destruct ev as [|u|h u|u]; cbn [dispatch].
  - apply Hb.
  - unfold add_faq. destruct (split _ _) as [|q [|a [|x l]]]; apply Hb.
  - unfold set_reminder. destruct (split _ _) as [|c [|t [|x l]]]; try apply Hb.
    destruct (request_reminder _ _ _ _ _ _) as [d e]. apply Hb.
  - unfold context_of at 1. rewrite handle_message_context.
    destruct (decide (group_of (chat_id u) = g)) as [<-|Hne].
    + rewrite lookup_insert_eq. cbv [from_option id].
      pose proof (Hb (group_of (chat_id u))) as Hlen.
      destruct (100 <? _)%nat eqn:E.
      * rewrite length_drop, length_app. cbn. lia.
      * apply Nat.ltb_ge in E. exact E.
    + rewrite lookup_insert_ne by exact Hne. apply Hb.
Qed.

Lemma run_context_bounded {U : Unicode} {P : Pipeline} (evs : list Event)
    (bot : AIMessagingBot) :
  (forall g, (length (context_of bot g) <= 100)%nat) ->
  forall g, (length (context_of (run bot evs) g) <= 100)%nat.
Proof.
  revert bot. induction evs as [|ev evs IH]; intros bot Hb.
  - exact Hb.
  - cbn. apply IH. apply dispatch_context_bounded. exact Hb.
Qed.

(** C9. Started with an empty context (on any database), the bot never
    holds more than 100 messages for a group, whatever updates it handles;
    and a message that arrives when the buffer of its group holds 100
    entries pushes out the oldest one and is appended at the end. *)
Theorem group_context_bounded {U : Unicode} {P : Pipeline} :
  (forall (d : Database) (evs : list Event) (group : str),
      (length (context_of (run {| db := d; group_context := ∅ |} evs) group)
       <= 100)%nat)
  ∧ (forall (bot : AIMessagingBot) (u : Update),
        length (context_of bot (group_of (chat_id u))) = 100%nat ->
        context_of (handle_message bot u).1 (group_of (chat_id u))
        = drop 1 (context_of bot (group_of (chat_id u))) ++ [message_text u]).
Proof.
  split.
  - intros d evs group. apply run_context_bounded.
    intros g. unfold context_of. cbn. rewrite lookup_empty. cbn. lia.
  - intros bot u Hfull. unfold context_of at 1.
    rewrite handle_message_context, lookup_insert_eq. cbv [from_option id].
    rewrite length_app, Hfull. cbn [length Nat.add Nat.ltb Nat.leb].
    replace (100 + 1 <=? 100)%nat with false by reflexivity.
    destruct (context_of bot (group_of (chat_id u))); [discriminate|].
    reflexivity.
Qed.

Lemma group_context_bounded_witness :
  context_of (handle_message (U := latin1) (P := blank_pipeline) full_bot hello).1
    (group_of (chat_id hello))
  = drop 1 (context_of full_bot (group_of (chat_id hello)))
    ++ [message_text hello].
Proof.
  apply (proj2 (group_context_bounded (U := latin1) (P := blank_pipeline))
           full_bot hello).
  vm_compute. reflexivity.
Defined.

(** ** The reminder service *)

Lemma lex_lt_irrefl (l : list Z) : lex_lt l l = false.
Proof.
  induction l as [|x l IH]; [reflexivity|].
  cbn. rewrite Z.ltb_irrefl, Z.eqb_refl, IH. reflexivity.
Qed.

Lemma datetime_lt_irrefl (t : datetime) : datetime_lt t t = false.
Proof. apply lex_lt_irrefl. Qed.

(** The parser is lenient about padding and spacing, and strict about
    the calendar. *)
Lemma strptime_examples :
  strptime (U := latin1) (lit "2025-01-05 07:00") = Some seven_sharp
  ∧ strptime (U := latin1) (lit "2025-1-5   7:0") = Some seven_sharp
  ∧ strptime (U := latin1) (lit "tomorrow") = None
  ∧ strptime (U := latin1) (lit "2025-02-30 10:00") = None
  ∧ strptime (U := latin1) (lit "2025-01-05 07:00:00") = None.
Proof. vm_compute. repeat split; reflexivity. Qed.

(** A time strictly before the clock is refused and nothing is stored or
    scheduled. *)
Lemma past_reminder_is_refused {U : Unicode} (h : Host) (chat mid : Z)
    (content time_str : str) (d : Database) (when : datetime) :
  strptime time_str = Some when ->
  datetime_lt when (now_at_check h) = true ->
  request_reminder h chat mid content time_str d
  = (d, reply_text (lit "Reminder time must be in the future.")).
Proof. intros Hp Hlt. unfold request_reminder. rewrite Hp, Hlt. reflexivity. Qed.

(** C2. A reminder whose time equals the current time is not refused: the
    guard is [remind_time < datetime.now()], so the row is inserted, the
    user is told "Reminder set ..." and the delivery is scheduled, although
    the time is not in the future. *)
Theorem reminder_at_current_time_is_accepted {U : Unicode} (h : Host)
    (chat mid : Z) (content time_str : str) (d : Database) (when : datetime) :
  strptime time_str = Some when ->
  now_at_check h = when ->
  fault h = None ->
  let r := request_reminder h chat mid content time_str d in
  reminders r.1
  = reminders d ++ [ {| reminder_group_id := group_of chat;
                        reminder_message_id := mid;
                        reminder_content := content;
                        remind_time := when |} ]
  ∧ replies r.2
    = [ lit "Reminder set for '" ++ content ++ lit "' at " ++ time_str ]
  ∧ tasks r.2
    = [ {| task_chat := chat; task_content := content;
           task_delay := delay_between when (now_at_schedule h) |} ].
Proof.
  intros Hp Hnow Hf r. subst r. unfold request_reminder.
  rewrite Hp, Hnow, datetime_lt_irrefl, Hf. cbn. repeat split; reflexivity.
Qed.

Lemma reminder_at_current_time_is_accepted_witness :
  let r := request_reminder (U := latin1) on_the_minute 42 7 (lit "team sync")
             (lit "2025-01-05 07:00") init_db in
  reminders r.1
  = [ {| reminder_group_id := lit "42"; reminder_message_id := 7;
         reminder_content := lit "team sync"; remind_time := seven_sharp |} ]
  ∧ replies r.2 = [ lit "Reminder set for 'team sync' at 2025-01-05 07:00" ]
  ∧ tasks r.2
    = [ {| task_chat := 42; task_content := lit "team sync";
           task_delay := -150 |} ].
Proof.
  apply (reminder_at_current_time_is_accepted (U := latin1) on_the_minute 42 7
           (lit "team sync") (lit "2025-01-05 07:00") init_db seven_sharp).
  - vm_compute. reflexivity.
  - reflexivity.
  - reflexivity.
Defined.

(** C4. When [sqlite3.connect] itself fails inside [store_reminder], the
    error is caught and logged, but [finally] then closes a connection
    that was never bound: an [UnboundLocalError] leaves [store_reminder],
    the caller logs it and answers "Failed to set reminder.", nothing is
    stored and no delivery is scheduled. The storage error is not
    swallowed and no success is acknowledged. *)
Theorem failed_connect_is_reported {U : Unicode} (h : Host) (chat mid : Z)
    (content time_str : str) (d : Database) (when : datetime) :
  strptime time_str = Some when ->
  datetime_lt when (now_at_check h) = false ->
  fault h = Some ConnectFails ->
  let r := request_reminder h chat mid content time_str d in
  store_reminder (fault h) (group_of chat) mid content when d
  = ((d, log_error SQLiteErrorInStoreReminder), Some UnboundLocalError)
  ∧ r.1 = d
  ∧ logged r.2 = [SQLiteErrorInStoreReminder; ErrorInSetReminder]
  ∧ replies r.2 = [ lit "Failed to set reminder." ]
  ∧ tasks r.2 = [].
Proof.
  intros Hp Hlt Hf r. subst r. unfold request_reminder.
  rewrite Hp, Hlt, Hf. cbn. repeat split; reflexivity.
Qed.

Lemma failed_connect_is_reported_witness :
  let r := request_reminder (U := latin1) failing_connect 42 7
             (lit "team sync") (lit "2025-01-05 07:00") init_db in
  store_reminder (Some ConnectFails) (lit "42") 7 (lit "team sync")
    seven_sharp init_db
  = ((init_db, log_error SQLiteErrorInStoreReminder), Some UnboundLocalError)
  ∧ r.1 = init_db
  ∧ logged r.2 = [SQLiteErrorInStoreReminder; ErrorInSetReminder]
  ∧ replies r.2 = [ lit "Failed to set reminder." ]
  ∧ tasks r.2 = [].
Proof.
  apply (failed_connect_is_reported (U := latin1) failing_connect 42 7
           (lit "team sync") (lit "2025-01-05 07:00") init_db seven_sharp).
  - vm_compute. reflexivity.
  - vm_compute. reflexivity.
  - reflexivity.
Defined.

(** X20. When the [INSERT] of the reminder fails (at [execute] or at
    [commit]), [store_reminder] logs the error and returns normally; the
    caller goes on, tells the user "Reminder set for ..." and schedules the
    delivery, and the database is as it was. *)
Theorem failed_insert_is_swallowed {U : Unicode} (h : Host) (chat mid : Z)
    (content time_str : str) (d : Database) (when : datetime) :
  strptime time_str = Some when ->
  datetime_lt when (now_at_check h) = false ->
  fault h = Some ExecuteFails ∨ fault h = Some CommitFails ->
  let r := request_reminder h chat mid content time_str d in
  store_reminder (fault h) (group_of chat) mid content when d
  = ((d, log_error SQLiteErrorInStoreReminder), None)
  ∧ r.1 = d
  ∧ logged r.2 = [SQLiteErrorInStoreReminder]
  ∧ replies r.2
    = [ lit "Reminder set for '" ++ content ++ lit "' at " ++ time_str ]
  ∧ tasks r.2
    = [ {| task_chat := chat; task_content := content;
           task_delay := delay_between when (now_at_schedule h) |} ].
Proof.
  intros Hp Hlt Hf r. subst r. unfold request_reminder.
  rewrite Hp, Hlt. destruct Hf as [-> | ->]; cbn; repeat split; reflexivity.
Qed.

Lemma failed_insert_is_swallowed_witness :
  let r := request_reminder (U := latin1) failing_commit 42 7 (lit "team sync")
             (lit "2025-01-05 07:00") init_db in
  store_reminder (Some CommitFails) (lit "42") 7 (lit "team sync") seven_sharp
    init_db
  = ((init_db, log_error SQLiteErrorInStoreReminder), None)
  ∧ r.1 = init_db
  ∧ logged r.2 = [SQLiteErrorInStoreReminder]
  ∧ replies r.2 = [ lit "Reminder set for 'team sync' at 2025-01-05 07:00" ]
  ∧ tasks r.2
    = [ {| task_chat := 42; task_content := lit "team sync";
           task_delay := delay_between seven_sharp (now_at_schedule failing_commit) |} ].
Proof.
  apply (failed_insert_is_swallowed (U := latin1) failing_commit 42 7
           (lit "team sync") (lit "2025-01-05 07:00") init_db seven_sharp).
  - vm_compute. reflexivity.
  - vm_compute. reflexivity.
  - right. reflexivity.
Defined.

(** C6. A time string that [strptime] rejects: the [ValueError] is caught
    and logged, the user is told "Invalid format. ...", the handler ends
    normally, and nothing is stored or scheduled. *)
Theorem unparsable_time_is_format_error {U : Unicode} (h : Host)
    (chat mid : Z) (content time_str : str) (d : Database) :
  strptime time_str = None ->
  let r := request_reminder h chat mid content time_str d in
  r.1 = d
  ∧ replies r.2
    = [ lit "Invalid format. Use: /setreminder message | YYYY-MM-DD HH:MM" ]
  ∧ logged r.2 = [ValueErrorInSetReminder]
  ∧ tasks r.2 = [].
Proof.
  intros Hp r. subst r. unfold request_reminder. rewrite Hp.
  cbn. repeat split; reflexivity.
Qed.

Lemma unparsable_time_is_format_error_witness :
  let r := request_reminder (U := latin1) on_the_minute 42 7 (lit "team sync")
             (lit "tomorrow") init_db in
  r.1 = init_db
  ∧ replies r.2
    = [ lit "Invalid format. Use: /setreminder message | YYYY-MM-DD HH:MM" ]
  ∧ logged r.2 = [ValueErrorInSetReminder]
  ∧ tasks r.2 = [].
Proof.
  apply (unparsable_time_is_format_error (U := latin1) on_the_minute 42 7
           (lit "team sync") (lit "tomorrow") init_db).
  vm_compute. reflexivity.
Defined.

(** The handler reaches [request_reminder] exactly when its arguments,
    joined by spaces, hold one "|"; otherwise it only shows the usage. *)
Lemma set_reminder_unpacks {U : Unicode} (h : Host) (bot : AIMessagingBot)
    (u : Update) (content time_str : str) :
  split 124%N (join (lit " ") (args u)) = [content; time_str] ->
  db (set_reminder h bot u).1
  = (request_reminder h (chat_id u) (message_id u) (strip content)
       (strip time_str) (db bot)).1
  ∧ (set_reminder h bot u).2
    = (request_reminder h (chat_id u) (message_id u) (strip content)
         (strip time_str) (db bot)).2.
Proof.
  intros Hs. unfold set_reminder. rewrite Hs.
  destruct (request_reminder _ _ _ _ _ _) as [d e]. split; reflexivity.
Qed.

Lemma set_reminder_usage {U : Unicode} (h : Host) (bot : AIMessagingBot)
    (u : Update) :
  length (split 124%N (join (lit " ") (args u))) ≠ 2%nat ->
  set_reminder h bot u
  = (bot, reply_text (lit "Usage: /setreminder message | YYYY-MM-DD HH:MM")).
Proof.
  intros Hlen. unfold set_reminder.
  destruct (split _ _) as [|c [|t [|x l]]]; try reflexivity.
  contradiction Hlen. reflexivity.
Qed.

(** * Further properties of the handlers *)

(** ** The relevance classifier, both ways *)

Lemma boundary_before_word_inv {U : Unicode} (pre w rest : str) (c : char) :
  head w = Some c -> is_word c = true ->
  boundary (pre ++ w ++ rest) (length pre) = true ->
  forall b, last pre = Some b -> is_word b = false.
Proof.
  intros Hc Hw Hb b Hlast. unfold boundary in Hb.
  assert (word_at (pre ++ w ++ rest) (length pre) = true) as Hat.
  { unfold word_at. rewrite lookup_app_r by lia.
    replace (length pre - length pre)%nat with 0%nat by lia.
    destruct w as [|x w]; [discriminate|]. injection Hc as ->. exact Hw. }
  rewrite Hat in Hb. rewrite last_lookup in Hlast.
  destruct (length pre) as [|j] eqn:Hlen.
  - destruct pre; [discriminate Hlast | discriminate Hlen].
  - cbn [pred] in Hlast. unfold word_at in Hb.
    rewrite lookup_app_l, Hlast in Hb by lia.
    destruct (is_word b); [discriminate Hb | reflexivity].
Qed.

Lemma boundary_after_word_inv {U : Unicode} (pre w rest : str) (c : char) :
  last w = Some c -> is_word c = true ->
  boundary (pre ++ w ++ rest) (length pre + length w) = true ->
  forall b, head rest = Some b -> is_word b = false.
Proof.
  intros Hc Hw Hb b Hhead. unfold boundary in Hb.
  rewrite last_lookup in Hc.
  destruct w as [|x w]; [discriminate|]. cbn [length pred] in *.
  replace (length pre + S (length w))%nat with (S (length pre + length w))
    in Hb by lia.
  unfold word_at in Hb.
  rewrite (lookup_app_r pre) in Hb by lia.
  replace (length pre + length w - length pre)%nat with (length w) in Hb by lia.
  rewrite (lookup_app_l (x :: w)) in Hb by (cbn; lia).
  rewrite Hc, Hw in Hb.
  rewrite app_assoc, lookup_app_r in Hb by (rewrite length_app; cbn; lia).
  rewrite length_app in Hb. cbn [length] in Hb.
  replace (S (length pre + length w) - (length pre + S (length w)))%nat
    with 0%nat in Hb by lia.
  destruct rest as [|y rest]; [discriminate|]. injection Hhead as ->.
  cbn in Hb. destruct (is_word b); [discriminate Hb | reflexivity].
Qed.

Lemma re_search_inv {U : Unicode} (alts : list str) (s : str) :
  re_search alts s = true ->
  exists pre kw post,
    s = pre ++ kw ++ post ∧ In kw alts
    ∧ boundary s (length pre) = true
    ∧ boundary s (length pre + length kw) = true.
Proof.
  unfold re_search. intros (i & Hi & Hm)%existsb_exists.
  apply in_seq in Hi. unfold match_at in Hm.
  apply andb_prop in Hm as [Hb (kw & Hkw & Hk)%existsb_exists].
  apply andb_prop in Hk as [Hp Ha]. apply prefixb_true in Hp as [post Hpost].
  assert (length (take i s) = i) as Hlen by (rewrite length_take; lia).
  exists (take i s), kw, post. rewrite Hlen.
  split; [|split; [exact Hkw|split; assumption]].
  rewrite <- Hpost. symmetry. apply take_drop.
Qed.

(** X1. A message is important exactly when its lowercase form holds one
    of the ten keywords as a whole word, or the recognizer, run on the
    lowercase form, reports an entity labelled DATE, TIME or EVENT. *)
Theorem detect_relevance_iff {U : Unicode} {P : Pipeline} (msg : str) :
  detect_relevance msg = true
  <-> (exists pre kw post,
         str_lower msg = pre ++ kw ++ post
         ∧ kw ∈ concat IMPORTANT_KEYWORDS
         ∧ (forall c, last pre = Some c -> is_word c = false)
         ∧ (forall c, head post = Some c -> is_word c = false))
      ∨ (exists ent,
           ent ∈ ents (nlp (str_lower msg))
           ∧ label_ ent ∈ lit <$> ["DATE"; "TIME"; "EVENT"]%string).
Proof.
  unfold detect_relevance. rewrite orb_true_iff. split.
  - intros [Hk|He].
    + left. apply existsb_exists in Hk as (pattern & Hpat & Hs).
      apply re_search_inv in Hs as (pre & kw & post & Hmsg & Hkw & Hb & Ha).
      assert (kw ∈ concat IMPORTANT_KEYWORDS) as Hin.
      { apply list_elem_of_In, in_concat. exists pattern. split; assumption. }
      destruct (keyword_shape kw Hin)
        as (_ & first & final & _ & _ & Hf & Hfl & Hl & Hll).
      exists pre, kw, post. split; [exact Hmsg|]. split; [exact Hin|].
      rewrite Hmsg in Hb, Ha. split.
      * exact (boundary_before_word_inv pre kw post first Hf
                 (is_word_lower_letter first Hfl) Hb).
      * exact (boundary_after_word_inv pre kw post final Hl
                 (is_word_lower_letter final Hll) Ha).
    + right. apply existsb_exists in He as (ent & Hin & Hl).
      exists ent. split; [apply list_elem_of_In; exact Hin|].
      apply bool_decide_eq_true in Hl. exact Hl.
  - intros [(pre & kw & post & Hmsg & Hkw & Hpre & Hpost)|(ent & Hin & Hl)].
    + left. rewrite Hmsg. apply some_pattern_matches; assumption.
    + right. apply existsb_exists. exists ent.
      split; [apply list_elem_of_In; exact Hin|].
      apply bool_decide_eq_true. exact Hl.
Qed.

(** ** What a lookup and a question leave behind *)

Lemma fetchone_sound (group lowered : str) (rows : list FAQEntry)
    (a : str) (f : Z) :
  fetchone (select_answer_frequency group lowered rows) = Some (a, f) ->
  exists pre row post,
    rows = pre ++ row :: post
    ∧ (forall r, r ∈ pre -> ¬ matches group lowered r)
    ∧ matches group lowered row
    ∧ answer row = a ∧ frequency row = f.
Proof.
  unfold select_answer_frequency.
  induction rows as [|r rows IH]; intros Hhit; [discriminate|].
  destruct (decide (matches group lowered r)) as [Hm|Hm].
  - rewrite filter_cons_True in Hhit by exact Hm. injection Hhit as Ha Hf.
    exists [], r, rows. split; [reflexivity|].
    split; [intros x Hx; inversion Hx|]. split; [exact Hm|]. split; assumption.
  - rewrite filter_cons_False in Hhit by exact Hm.
    destruct (IH Hhit) as (pre & row & post & -> & Hpre & Hrow & Ha & Hf).
    exists (r :: pre), row, post. split; [reflexivity|].
    split; [|split; [exact Hrow|split; assumption]].
    intros x [->|Hx]%elem_of_cons; [exact Hm | exact (Hpre x Hx)].
Qed.

Lemma get_faq_answer_other_tables {U : Unicode} (group q : str) (d : Database) :
  important_messages (get_faq_answer group q d).2 = important_messages d
  ∧ reminders (get_faq_answer group q d).2 = reminders d.
Proof.
  unfold get_faq_answer. destruct (fetchone _) as [[a f]|]; split; reflexivity.
Qed.

Lemma handle_question_other_tables {U : Unicode} (group q : str)
    (d : Database) :
  important_messages (handle_question group q d).2.1 = important_messages d
  ∧ reminders (handle_question group q d).2.1 = reminders d.
Proof.
  unfold handle_question.
  pose proof (get_faq_answer_other_tables group q d) as [Hi Hr].
  destruct (get_faq_answer group q d) as [a d1].
  destruct (truthy a); cbn in *; split; assumption.
Qed.

Lemma handle_question_one_reply {U : Unicode} (group q : str) (d : Database) :
  exists text, (handle_question group q d).2.2 = reply_text text.
Proof.
  unfold handle_question. destruct (get_faq_answer group q d) as [a d1].
  destruct (truthy a); eexists; reflexivity.
Qed.

(** X5. A question is answered automatically exactly when the oldest row
    of the group that the lookup matches has a non-empty answer, and the
    answer delivered is that row's. *)
Theorem auto_answer_iff_oldest_match {U : Unicode} (group q : str)
    (d : Database) (a : str) :
  (handle_question group q d).1 = Some a
  <-> a ≠ []
      ∧ exists pre row post,
          knowledge d = pre ++ row :: post
          ∧ (forall r, r ∈ pre ->
               ¬ (group_id r = group ∧ sql_lower (question r) = str_lower q))
          ∧ group_id row = group
          ∧ sql_lower (question row) = str_lower q
          ∧ answer row = a.
Proof.
  split.
  - unfold handle_question, get_faq_answer.
    destruct (fetchone _) as [[a' f]|] eqn:Hhit; [|discriminate].
    cbn. destruct a' as [|c a']; [discriminate|]. cbn. intros [= <-].
    split; [discriminate|].
    destruct (fetchone_sound _ _ _ _ _ Hhit)
      as (pre & row & post & Hk & Hpre & [Hg Hq] & Ha & _).
    exists pre, row, post. repeat split; assumption.
  - intros (Ha & pre & row & post & Hk & Hpre & Hg & Hq & <-).
    unfold handle_question.
    rewrite (get_faq_answer_hit group q d pre post row Hk Hpre (conj Hg Hq)).
    destruct (answer row); [congruence | reflexivity].
Qed.

(** X6. Handling a question appends a row exactly when no answer is
    delivered: then the question is stored once more with the answer
    "Pending admin response"; in both cases no earlier row loses or
    changes its group, question or answer, and the other tables are
    untouched. *)
Theorem pending_row_iff_unanswered {U : Unicode} (group q : str)
    (d : Database) :
  columns <$> knowledge (handle_question group q d).2.1
  = (columns <$> knowledge d)
    ++ match (handle_question group q d).1 with
       | Some _ => []
       | None => [(group, q, lit "Pending admin response")]
       end
  ∧ important_messages (handle_question group q d).2.1 = important_messages d
  ∧ reminders (handle_question group q d).2.1 = reminders d.
Proof.
  split; [|apply handle_question_other_tables].
  unfold handle_question.
  pose proof (get_faq_answer_columns group q d) as Hc.
  destruct (get_faq_answer group q d) as [a d1]. cbn in Hc.
  destruct a as [[|c a]|]; cbn.
  - rewrite fmap_app, Hc. reflexivity.
  - rewrite Hc, app_nil_r. reflexivity.
  - rewrite fmap_app, Hc. reflexivity.
Qed.

(** ** Important messages *)

Lemma handle_message_important {U : Unicode} {P : Pipeline}
    (bot : AIMessagingBot) (u : Update) :
  important_messages (db (handle_message bot u).1)
  = important_messages (db bot)
    ++ (if detect_relevance (message_text u) then [archived u] else [])
  ∧ reminders (db (handle_message bot u).1) = reminders (db bot).
Proof.
  unfold handle_message.
  destruct (detect_relevance (message_text u));
    destruct (truthy (extract_question (message_text u))); cbn;
    rewrite ?app_nil_r; try (split; reflexivity).
  - pose proof (handle_question_other_tables (group_of (chat_id u))
                  (default [] (extract_question (message_text u)))
                  (store_important_message (group_of (chat_id u))
                     (message_id u) (message_text u) (db bot))) as [Hi Hr].
    destruct (handle_question _ _ _) as [r [d e]]. cbn in *.
    split; assumption.
  - pose proof (handle_question_other_tables (group_of (chat_id u))
                  (default [] (extract_question (message_text u)))
                  (db bot)) as [Hi Hr].
    destruct (handle_question _ _ _) as [r [d e]]. cbn in *.
    rewrite ?app_nil_r in *. split; assumption.
Qed.

(** X2. [handle_message] archives a message exactly when the classifier
    finds it important: one row with the group, the message id and the
    text as received, appended after the rows already there (a repeated
    message is archived again). The notice "[Important] ..." is then the
    first reply, and at most one more reply follows. *)
Theorem important_message_is_archived {U : Unicode} {P : Pipeline}
    (bot : AIMessagingBot) (u : Update) :
  important_messages (db (handle_message bot u).1)
  = important_messages (db bot)
    ++ (if detect_relevance (message_text u) then [archived u] else [])
  ∧ exists rest,
      replies (handle_message bot u).2
      = (if detect_relevance (message_text u)
         then [[128226%N] ++ lit " [Important] " ++ message_text u]
         else [])
        ++ rest
      ∧ (length rest <= 1)%nat.
Proof.
  split; [apply handle_message_important|].
  unfold handle_message.
  destruct (detect_relevance (message_text u));
    destruct (truthy (extract_question (message_text u))); cbn.
  - destruct (handle_question_one_reply (group_of (chat_id u))
                (default [] (extract_question (message_text u)))
                (store_important_message (group_of (chat_id u))
                   (message_id u) (message_text u) (db bot))) as [t Ht].
    destruct (handle_question _ _ _) as [r [d e]]. cbn in *. subst e.
    eexists. split; [reflexivity|]. cbn. lia.
  - exists []. split; [reflexivity|]. cbn. lia.
  - destruct (handle_question_one_reply (group_of (chat_id u))
                (default [] (extract_question (message_text u)))
                (db bot)) as [t Ht].
    destruct (handle_question _ _ _) as [r [d e]]. cbn in *. subst e.
    eexists. split; [reflexivity|]. cbn. lia.
  - exists []. split; [reflexivity|]. cbn. lia.
Qed.

(** ** Nothing is ever deleted *)

Lemma store_reminder_tables (f : option StorageFault) (group : str) (mid : Z)
    (content : str) (when : datetime) (d : Database) :
  important_messages (store_reminder f group mid content when d).1.1
  = important_messages d
  ∧ reminders d `prefix_of`
    reminders (store_reminder f group mid content when d).1.1.
Proof.
  destruct f as [[]|]; cbn; split; try reflexivity.
  apply prefix_app_r. reflexivity.
Qed.

Lemma request_reminder_tables {U : Unicode} (h : Host) (chat mid : Z)
    (content time_str : str) (d : Database) :
  important_messages (request_reminder h chat mid content time_str d).1
  = important_messages d
  ∧ reminders d `prefix_of`
    reminders (request_reminder h chat mid content time_str d).1.
Proof.
  unfold request_reminder.
  destruct (strptime time_str) as [when|]; [|split; reflexivity].
  destruct (datetime_lt when (now_at_check h)); [split; reflexivity|].
  pose proof (store_reminder_tables (fault h) (group_of chat) mid content
                when d) as Ht.
  destruct (store_reminder _ _ _ _ _ _) as [[d1 e1] [[]|]]; exact Ht.
Qed.

Lemma dispatch_other_tables {U : Unicode} {P : Pipeline}
    (bot : AIMessagingBot) (ev : Event) :
  important_messages (db bot) `prefix_of`
    important_messages (db (dispatch bot ev).1)
  ∧ reminders (db bot) `prefix_of` reminders (db (dispatch bot ev).1).
Proof.
  destruct ev as [|u|h u|u]; cbn [dispatch].
  - split; reflexivity.
  - unfold add_faq. destruct (split _ _) as [|q [|a [|x l]]];
      split; reflexivity.
  - unfold set_reminder.
    destruct (split _ _) as [|c [|t [|x l]]]; try (split; reflexivity).
    pose proof (request_reminder_tables h (chat_id u) (message_id u)
                  (strip c) (strip t) (db bot)) as [Hi Hr].
    destruct (request_reminder _ _ _ _ _ _) as [d e]. cbn in *.
    rewrite Hi. split; [reflexivity | exact Hr].
  - destruct (handle_message_important bot u) as [-> ->].
    split; [apply prefix_app_r|]; reflexivity.
Qed.

(** X3. No update ever removes or rewrites stored data: after any
    sequence of updates the important messages and the reminders that
    were stored are still there, unchanged and in the same order, ahead of
    the new ones, and so are the group, question and answer of every
    knowledge row (only frequencies are rewritten). *)
Theorem tables_only_grow {U : Unicode} {P : Pipeline} (bot : AIMessagingBot)
    (evs : list Event) :
  columns <$> knowledge (db bot) `prefix_of`
    columns <$> knowledge (db (run bot evs))
  ∧ important_messages (db bot) `prefix_of`
      important_messages (db (run bot evs))
  ∧ reminders (db bot) `prefix_of` reminders (db (run bot evs)).
Proof.
  split; [apply run_columns|].
  revert bot. induction evs as [|ev evs IH]; intros bot.
  - split; reflexivity.
  - cbn. destruct (dispatch_other_tables bot ev) as [Hi Hr].
    destruct (IH (dispatch bot ev).1) as [Hi' Hr'].
    split; etrans; eassumption.
Qed.

(** ** Frequencies *)

(** The knowledge table changes through [get_faq_answer] and [store_faq]
    only: what both keep, every handler keeps. *)
Lemma dispatch_knowledge_ind {U : Unicode} {P : Pipeline}
    (Q : list FAQEntry -> Prop) :
  (forall group q d, Q (knowledge d) ->
                     Q (knowledge (get_faq_answer group q d).2)) ->
  (forall group q a d, Q (knowledge d) ->
                       Q (knowledge (store_faq group q a d))) ->
  forall bot ev, Q (knowledge (db bot)) ->
                 Q (knowledge (db (dispatch bot ev).1)).
Proof.
  intros Hget Hstore bot ev HQ.
  assert (forall group q d, Q (knowledge d) ->
            Q (knowledge (handle_question group q d).2.1)) as Hhq.
  { intros group q d Hd. unfold handle_question.
    pose proof (Hget group q d Hd) as H1.
    destruct (get_faq_answer group q d) as [a d1]. cbn in H1.
    destruct (truthy a); cbn; [exact H1 | apply Hstore; exact H1]. }
  destruct ev as [|u|h u|u]; cbn [dispatch].
  - exact HQ.
  - unfold add_faq. destruct (split _ _) as [|q [|a [|x l]]]; try exact HQ.
    cbn. apply Hstore. exact HQ.
  - unfold set_reminder.
    destruct (split _ _) as [|c [|t [|x l]]]; try exact HQ.
    pose proof (request_reminder_knowledge h (chat_id u) (message_id u)
                  (strip c) (strip t) (db bot)) as Hk.
    destruct (request_reminder _ _ _ _ _ _) as [d e]. cbn in *.
    rewrite Hk. exact HQ.
  - unfold handle_message.
    destruct (detect_relevance (message_text u));
      destruct (truthy (extract_question (message_text u))); cbn;
      try exact HQ.
    + pose proof (Hhq (group_of (chat_id u))
                    (default [] (extract_question (message_text u)))
                    (store_important_message (group_of (chat_id u))
                       (message_id u) (message_text u) (db bot)) HQ) as H1.
      destruct (handle_question _ _ _) as [r [d e]]. exact H1.
    + pose proof (Hhq (group_of (chat_id u))
                    (default [] (extract_question (message_text u)))
                    (db bot) HQ) as H1.
      destruct (handle_question _ _ _) as [r [d e]]. exact H1.
Qed.

Lemma get_faq_answer_positive {U : Unicode} (group q : str) (d : Database) :
  (forall row, row ∈ knowledge d -> 1 <= frequency row) ->
  forall row, row ∈ knowledge (get_faq_answer group q d).2 ->
              1 <= frequency row.
Proof.
  intros Hd. unfold get_faq_answer.
  destruct (fetchone _) as [[a f]|] eqn:Hhit; [|exact Hd].
  destruct (fetchone_sound _ _ _ _ _ Hhit)
    as (pre & found & post & Hk & _ & _ & _ & Hf).
  assert (1 <= f) as Hpos.
  { rewrite <- Hf. apply Hd. rewrite Hk. apply elem_of_app. right. left. }
  cbn. unfold update_frequency. intros row Hin.
  apply list_elem_of_fmap in Hin as (old & -> & Hold).
  case_bool_decide; cbn; [lia | exact (Hd old Hold)].
Qed.

(** X4. Every stored frequency is at least 1, whatever updates are
    handled: a row enters with frequency 1 and a rewrite stores the
    frequency of a row that was read, plus one. *)
Theorem frequencies_stay_positive {U : Unicode} {P : Pipeline}
    (bot : AIMessagingBot) (evs : list Event) :
  (forall row, row ∈ knowledge (db bot) -> 1 <= frequency row) ->
  forall row, row ∈ knowledge (db (run bot evs)) -> 1 <= frequency row.
Proof.
  revert bot. induction evs as [|ev evs IH]; intros bot Hb; [exact Hb|].
  cbn. apply IH.
  apply (dispatch_knowledge_ind
           (fun rows => forall row, row ∈ rows -> 1 <= frequency row));
    [| |exact Hb].
  - intros group q d. apply get_faq_answer_positive.
  - intros group q a d Hd row [Hin|Hin]%elem_of_app; [exact (Hd row Hin)|].
    apply list_elem_of_singleton in Hin. subst row. cbn. lia.
Qed.

Lemma frequencies_stay_positive_witness :
  Forall (fun row => 1 <= frequency row)
    (knowledge (db (run (U := latin1) (P := whitespace_pipeline)
                      {| db := venue_db; group_context := ∅ |}
                      lunch_events))).
Proof.
  apply Forall_forall.
  apply (frequencies_stay_positive (U := latin1) (P := whitespace_pipeline)
           {| db := venue_db; group_context := ∅ |} lunch_events).
  intros row Hin. vm_compute in Hin.
  apply list_elem_of_singleton in Hin. subst row. vm_compute. discriminate.
Defined.

(** ** Who schedules and who logs *)

(** X16. Only [/setreminder] creates a delivery task or logs an error:
    [/start], [/addfaq] and a plain message do neither. *)
Theorem only_set_reminder_schedules {U : Unicode} {P : Pipeline}
    (bot : AIMessagingBot) (ev : Event) :
  (forall h u, ev ≠ SetReminder h u) ->
  tasks (dispatch bot ev).2 = [] ∧ logged (dispatch bot ev).2 = [].
Proof.
  intros Hev. destruct ev as [|u|h u|u]; cbn [dispatch].
  - split; reflexivity.
  - unfold add_faq. destruct (split _ _) as [|q [|a [|x l]]];
      split; reflexivity.
  - contradiction (Hev h u). reflexivity.
  - unfold handle_message.
    destruct (detect_relevance (message_text u));
      destruct (truthy (extract_question (message_text u))); cbn;
      try (split; reflexivity).
    + destruct (handle_question_one_reply (group_of (chat_id u))
                  (default [] (extract_question (message_text u)))
                  (store_important_message (group_of (chat_id u))
                     (message_id u) (message_text u) (db bot))) as [t Ht].
      destruct (handle_question _ _ _) as [r [d e]]. cbn in *. subst e.
      split; reflexivity.
    + destruct (handle_question_one_reply (group_of (chat_id u))
                  (default [] (extract_question (message_text u)))
                  (db bot)) as [t Ht].
      destruct (handle_question _ _ _) as [r [d e]]. cbn in *. subst e.
      split; reflexivity.
Qed.

Lemma only_set_reminder_schedules_witness :
  tasks (dispatch (U := latin1) (P := whitespace_pipeline) new_bot
           (Message hello)).2 = []
  ∧ logged (dispatch (U := latin1) (P := whitespace_pipeline) new_bot
              (Message hello)).2 = [].
Proof.
  apply (only_set_reminder_schedules (U := latin1) (P := whitespace_pipeline)
           new_bot (Message hello)).
  intros h u. discriminate.
Defined.

(** ** The context buffer, exactly *)

Lemma dispatch_context {U : Unicode} {P : Pipeline} (bot : AIMessagingBot)
    (ev : Event) (group : str) :
  context_of (dispatch bot ev).1 group
  = match ev with
    | Message u =>
        if bool_decide (group_of (chat_id u) = group)
        then if (100 <? length (context_of bot group ++ [message_text u]))%nat
             then drop 1 (context_of bot group ++ [message_text u])
             else context_of bot group ++ [message_text u]
        else context_of bot group
    | _ => context_of bot group
    end.
Proof.
  destruct ev as [|u|h u|u]; cbn [dispatch].
  - reflexivity.
  - unfold add_faq. destruct (split _ _) as [|q [|a [|x l]]]; reflexivity.
  - unfold set_reminder.
    destruct (split _ _) as [|c [|t [|x l]]]; try reflexivity.
    destruct (request_reminder _ _ _ _ _ _) as [d e]. reflexivity.
  - unfold context_of at 1. rewrite handle_message_context.
    case_bool_decide as Hg.
    + subst group. rewrite lookup_insert_eq. reflexivity.
    + rewrite lookup_insert_ne by exact Hg. reflexivity.
Qed.

Lemma last_n_snoc {A} (l : list A) (x : A) :
  (if (100 <? length (last_n 100 l ++ [x]))%nat
   then drop 1 (last_n 100 l ++ [x])
   else last_n 100 l ++ [x])
  = last_n 100 (l ++ [x]).
Proof.
  unfold last_n. rewrite !length_app, length_drop. cbn [length].
  destruct (decide (length l < 100)%nat) as [Hlt|Hge].
  - replace (length l - 100)%nat with 0%nat by lia.
    replace (length l + 1 - 100)%nat with 0%nat by lia.
    cbn [drop].
    replace (100 <? length l - 0 + 1)%nat with false
      by (symmetry; apply Nat.ltb_ge; lia).
    reflexivity.
  - replace (100 <? length l - (length l - 100) + 1)%nat with true
      by (symmetry; apply Nat.ltb_lt; lia).
    rewrite (drop_app_le l [x]) by lia.
    rewrite (drop_app_le (drop _ l) [x]) by (rewrite length_drop; lia).
    rewrite drop_drop. f_equal. f_equal. lia.
Qed.

(** X13. Started with an empty context, the buffer of a group holds
    exactly the texts of the last 100 plain messages of that group, in the
    order of arrival; commands and the messages of other groups leave it
    alone. *)
Theorem context_holds_last_100 {U : Unicode} {P : Pipeline} (d : Database)
    (evs : list Event) (group : str) :
  context_of (run {| db := d; group_context := ∅ |} evs) group
  = last_n 100 (texts_for group evs).
Proof.
  induction evs as [|ev evs IH] using rev_ind.
  - reflexivity.
  - unfold run in *. rewrite foldl_snoc.
    unfold texts_for in *. rewrite omap_app.
    rewrite dispatch_context, IH.
    destruct ev as [|u|h u|u]; cbn [omap list_omap]; rewrite ?app_nil_r;
      try reflexivity.
    case_bool_decide; cbn [omap list_omap]; rewrite ?app_nil_r;
      [apply last_n_snoc | reflexivity].
Qed.

(** ** Groups do not see each other *)

Lemma lit_inj (s t : string) : lit s = lit t -> s = t.
Proof.
  revert t. induction s as [|a s IH]; intros [|b t] H; try discriminate H.
  - reflexivity.
  - unfold lit in H. cbn in H. injection H as Ha Hs.
    f_equal; [|apply IH; exact Hs].
    rewrite <- (ascii_N_embedding a), <- (ascii_N_embedding b), Ha.
    reflexivity.
Qed.

Lemma group_of_inj (c1 c2 : Z) : group_of c1 = group_of c2 -> c1 = c2.
Proof. intros H%lit_inj. exact (inj pretty _ _ H). Qed.

Lemma update_frequency_other_group (freq : Z) (group other q : str)
    (rows : list FAQEntry) :
  group ≠ other ->
  filter (fun row => group_id row = other) (update_frequency freq group q rows)
  = filter (fun row => group_id row = other) rows.
Proof.
  intros Hne. unfold update_frequency.
  induction rows as [|r rows IH]; [reflexivity|].
  rewrite fmap_cons, !filter_cons, IH.
  case_bool_decide as Hr; [|reflexivity].
  cbn. destruct Hr as [Hg _].
  rewrite !decide_False by congruence. reflexivity.
Qed.

Lemma handle_question_other_group {U : Unicode} (group other q : str)
    (d : Database) :
  group ≠ other ->
  filter (fun row => group_id row = other)
    (knowledge (handle_question group q d).2.1)
  = filter (fun row => group_id row = other) (knowledge d).
Proof.
  intros Hne. unfold handle_question, get_faq_answer.
  assert (forall rows,
            filter (fun row => group_id row = other)
              (rows ++ [ {| group_id := group; question := q;
                            answer := PENDING; frequency := 1 |} ])
            = filter (fun row => group_id row = other) rows) as Happ.
  { intros rows. rewrite filter_app, filter_cons_False by (cbn; exact Hne).
    rewrite filter_nil, app_nil_r. reflexivity. }
  destruct (fetchone _) as [[a f]|].
  - destruct (truthy (Some a)); cbn; rewrite ?Happ;
      apply update_frequency_other_group; exact Hne.
  - cbn. apply Happ.
Qed.

(** X14. An update of one chat changes nothing that belongs to another
    chat: the knowledge rows, the archived messages, the reminders and
    the context buffer of every other chat are the same before and
    after. *)
Theorem other_chats_are_untouched {U : Unicode} {P : Pipeline}
    (bot : AIMessagingBot) (ev : Event) (chat : Z) :
  ¬ concerns ev chat ->
  filter (fun row => group_id row = group_of chat)
    (knowledge (db (dispatch bot ev).1))
  = filter (fun row => group_id row = group_of chat) (knowledge (db bot))
  ∧ filter (fun m => important_group_id m = group_of chat)
      (important_messages (db (dispatch bot ev).1))
    = filter (fun m => important_group_id m = group_of chat)
        (important_messages (db bot))
  ∧ filter (fun r => reminder_group_id r = group_of chat)
      (reminders (db (dispatch bot ev).1))
    = filter (fun r => reminder_group_id r = group_of chat)
        (reminders (db bot))
  ∧ context_of (dispatch bot ev).1 (group_of chat)
    = context_of bot (group_of chat).
Proof.
  intros Hev.
  assert (forall u, ev = AddFaq u ∨ (exists h, ev = SetReminder h u)
                    ∨ ev = Message u ->
                    group_of (chat_id u) ≠ group_of chat) as Hne.
  { intros u Hu Heq. apply group_of_inj in Heq. apply Hev.
    destruct Hu as [->|[[h ->]| ->]]; exact Heq. }
  split; [|split; [|split]].
  - destruct ev as [|u|h u|u]; cbn [dispatch].
    + reflexivity.
    + unfold add_faq. destruct (split _ _) as [|q [|a [|x l]]];
        try reflexivity.
      cbn. rewrite filter_app, filter_cons_False
        by (cbn; apply Hne; left; reflexivity).
      rewrite filter_nil, app_nil_r. reflexivity.
    + unfold set_reminder.
      destruct (split _ _) as [|c [|t [|x l]]]; try reflexivity.
      pose proof (request_reminder_knowledge h (chat_id u) (message_id u)
                    (strip c) (strip t) (db bot)) as Hk.
      destruct (request_reminder _ _ _ _ _ _) as [d e]. cbn in *.
      rewrite Hk. reflexivity.
    + assert (group_of (chat_id u) ≠ group_of chat) as Hu
        by (apply Hne; right; right; reflexivity).
      unfold handle_message.
      destruct (detect_relevance (message_text u));
        destruct (truthy (extract_question (message_text u))); cbn;
        try reflexivity.
      * pose proof (handle_question_other_group (group_of (chat_id u))
                      (group_of chat)
                      (default [] (extract_question (message_text u)))
                      (store_important_message (group_of (chat_id u))
                         (message_id u) (message_text u) (db bot)) Hu) as H1.
        destruct (handle_question _ _ _) as [r [d e]]. exact H1.
      * pose proof (handle_question_other_group (group_of (chat_id u))
                      (group_of chat)
                      (default [] (extract_question (message_text u)))
                      (db bot) Hu) as H1.
        destruct (handle_question _ _ _) as [r [d e]]. exact H1.
  - destruct ev as [|u|h u|u]; cbn [dispatch].
    + reflexivity.
    + unfold add_faq. destruct (split _ _) as [|q [|a [|x l]]]; reflexivity.
    + unfold set_reminder.
      destruct (split _ _) as [|c [|t [|x l]]]; try reflexivity.
      pose proof (request_reminder_tables h (chat_id u) (message_id u)
                    (strip c) (strip t) (db bot)) as [Hi _].
      destruct (request_reminder _ _ _ _ _ _) as [d e]. cbn in *.
      rewrite Hi. reflexivity.
    + destruct (handle_message_important bot u) as [-> _].
      rewrite filter_app.
      destruct (detect_relevance (message_text u));
        [|rewrite filter_nil, app_nil_r; reflexivity].
      rewrite filter_cons_False
        by (cbn; apply Hne; right; right; reflexivity).
      rewrite filter_nil, app_nil_r. reflexivity.
  - destruct ev as [|u|h u|u]; cbn [dispatch].
    + reflexivity.
    + unfold add_faq. destruct (split _ _) as [|q [|a [|x l]]]; reflexivity.
    + assert (group_of (chat_id u) ≠ group_of chat) as Hu
        by (apply Hne; right; left; exists h; reflexivity).
      unfold set_reminder.
      destruct (split _ _) as [|c [|t [|x l]]]; try reflexivity.
      unfold request_reminder.
      destruct (strptime (strip t)) as [when|]; [|reflexivity].
      destruct (datetime_lt when (now_at_check h)); [reflexivity|].
      destruct (fault h) as [[]|]; cbn; try reflexivity.
      rewrite filter_app, filter_cons_False by (cbn; exact Hu).
      rewrite filter_nil, app_nil_r. reflexivity.
    + destruct (handle_message_important bot u) as [_ ->]. reflexivity.
  - rewrite dispatch_context. destruct ev as [|u|h u|u]; try reflexivity.
    rewrite bool_decide_eq_false_2; [reflexivity|].
    apply Hne. right. right. reflexivity.
Qed.

Lemma other_chats_are_untouched_witness :
  filter (fun row => group_id row = group_of 7)
    (knowledge (db (dispatch (U := latin1) (P := whitespace_pipeline)
                      full_bot (Message hello)).1))
  = filter (fun row => group_id row = group_of 7) (knowledge (db full_bot))
  ∧ filter (fun m => important_group_id m = group_of 7)
      (important_messages
         (db (dispatch (U := latin1) (P := whitespace_pipeline)
                full_bot (Message hello)).1))
    = filter (fun m => important_group_id m = group_of 7)
        (important_messages (db full_bot))
  ∧ filter (fun r => reminder_group_id r = group_of 7)
      (reminders (db (dispatch (U := latin1) (P := whitespace_pipeline)
                        full_bot (Message hello)).1))
    = filter (fun r => reminder_group_id r = group_of 7)
        (reminders (db full_bot))
  ∧ context_of (dispatch (U := latin1) (P := whitespace_pipeline)
                  full_bot (Message hello)).1 (group_of 7)
    = context_of full_bot (group_of 7).
Proof.
  apply (other_chats_are_untouched (U := latin1) (P := whitespace_pipeline)
           full_bot (Message hello) 7).
  vm_compute. discriminate.
Defined.

(** ** Unpacking the arguments of a command *)

Lemma split_length (d : char) (s : str) :
  length (split d s) = S (count_char d s).
Proof.
  unfold count_char. induction s as [|c s IH]; [reflexivity|].
  cbn [split]. rewrite filter_cons.
  destruct (c =? d)%N eqn:E.
  - apply N.eqb_eq in E. rewrite decide_True by exact E.
    cbn. rewrite IH. reflexivity.
  - apply N.eqb_neq in E. rewrite decide_False by exact E.
    destruct (split d s) as [|p ps]; [discriminate IH | exact IH].
Qed.

Lemma split_no_separator (d : char) (s : str) :
  count_char d s = 0%nat -> split d s = [s].
Proof.
  unfold count_char. induction s as [|c s IH]; [reflexivity|].
  rewrite filter_cons. cbn [split].
  destruct (c =? d)%N eqn:E.
  - apply N.eqb_eq in E. rewrite decide_True by exact E. discriminate.
  - apply N.eqb_neq in E. rewrite decide_False by exact E.
    intros H. rewrite (IH H). reflexivity.
Qed.

Lemma split_at_separator (d : char) (q a : str) :
  count_char d q = 0%nat -> split d (q ++ d :: a) = q :: split d a.
Proof.
  unfold count_char. induction q as [|c q IH]; cbn [app split].
  - rewrite N.eqb_refl. reflexivity.
  - rewrite filter_cons.
    destruct (c =? d)%N eqn:E.
    + apply N.eqb_eq in E. rewrite decide_True by exact E. discriminate.
    + apply N.eqb_neq in E. rewrite decide_False by exact E.
      intros H. rewrite (IH H). reflexivity.
Qed.

Lemma split_two (q a : str) :
  count_char 124%N q = 0%nat -> count_char 124%N a = 0%nat ->
  split 124%N (q ++ lit "|" ++ a) = [q; a].
Proof.
  intros Hq Ha. change (lit "|" ++ a) with (124%N :: a).
  rewrite split_at_separator, split_no_separator by assumption. reflexivity.
Qed.

Lemma split_not_two (s : str) :
  count_char 124%N s ≠ 1%nat -> length (split 124%N s) ≠ 2%nat.
Proof. rewrite split_length. lia. Qed.

Lemma add_faq_stores (bot : AIMessagingBot) (u : Update) (q a : str) :
  join (lit " ") (args u) = q ++ lit "|" ++ a ->
  count_char 124%N q = 0%nat -> count_char 124%N a = 0%nat ->
  add_faq bot u
  = ({| db := store_faq (group_of (chat_id u)) (strip q) (strip a) (db bot);
        group_context := group_context bot |},
     reply_text (lit "FAQ added: " ++ q ++ lit " -> " ++ a)).
Proof.
  intros Hj Hq Ha. unfold add_faq. rewrite Hj, split_two by assumption.
  reflexivity.
Qed.

(** X7. [/addfaq] stores a row exactly when its arguments, joined by
    spaces, hold one "|": the text before it, stripped, is the question
    and the text after it, stripped, the answer, with frequency 1, and the
    reply repeats both as typed. With no "|" or more than one (a "|"
    inside the question or the answer included) it shows the usage line
    and changes nothing. *)
Theorem add_faq_needs_one_separator (bot : AIMessagingBot) (u : Update) :
  (count_char 124%N (join (lit " ") (args u)) ≠ 1%nat ->
   add_faq bot u
   = (bot, reply_text (lit "Usage: /addfaq question | answer")))
  ∧ (forall q a,
        join (lit " ") (args u) = q ++ lit "|" ++ a ->
        count_char 124%N q = 0%nat -> count_char 124%N a = 0%nat ->
        add_faq bot u
        = ({| db := store_faq (group_of (chat_id u)) (strip q) (strip a)
                      (db bot);
              group_context := group_context bot |},
           reply_text (lit "FAQ added: " ++ q ++ lit " -> " ++ a))).
Proof.
  split; [|apply add_faq_stores].
  intros Hc%split_not_two. unfold add_faq.
  destruct (split _ _) as [|q [|a [|x l]]]; try reflexivity.
  contradiction Hc. reflexivity.
Qed.

Lemma add_faq_needs_one_separator_witness :
  add_faq new_bot lunch_faq
  = ({| db := store_faq (lit "42") (lit "where is lunch?") (lit "Room 2")
                init_db;
        group_context := ∅ |},
     reply_text (lit "FAQ added: where is lunch?  ->  Room 2")).
Proof.
  apply (proj2 (add_faq_needs_one_separator new_bot lunch_faq)
           (lit "where is lunch? ") (lit " Room 2")).
  - vm_compute. reflexivity.
  - vm_compute. reflexivity.
  - vm_compute. reflexivity.
Defined.

(** X15. [/setreminder] reaches the parser exactly when its arguments,
    joined by spaces, hold one "|": the stripped text before it is the
    content and the stripped text after it the time string. With no "|"
    or more than one it shows the usage line and changes nothing. *)
Theorem set_reminder_needs_one_separator {U : Unicode} (h : Host)
    (bot : AIMessagingBot) (u : Update) :
  (count_char 124%N (join (lit " ") (args u)) ≠ 1%nat ->
   set_reminder h bot u
   = (bot,
      reply_text (lit "Usage: /setreminder message | YYYY-MM-DD HH:MM")))
  ∧ (forall content time_str,
        join (lit " ") (args u) = content ++ lit "|" ++ time_str ->
        count_char 124%N content = 0%nat ->
        count_char 124%N time_str = 0%nat ->
        set_reminder h bot u
        = ({| db := (request_reminder h (chat_id u) (message_id u)
                       (strip content) (strip time_str) (db bot)).1;
              group_context := group_context bot |},
           (request_reminder h (chat_id u) (message_id u)
              (strip content) (strip time_str) (db bot)).2)).
Proof.
  split.
  - intros Hc%split_not_two. unfold set_reminder.
    destruct (split _ _) as [|c [|t [|x l]]]; try reflexivity.
    contradiction Hc. reflexivity.
  - intros content time_str Hj Hc Ht. unfold set_reminder.
    rewrite Hj, split_two by assumption.
    destruct (request_reminder _ _ _ _ _ _) as [d e]. reflexivity.
Qed.

Lemma set_reminder_needs_one_separator_witness :
  set_reminder (U := latin1) on_the_minute new_bot sync_reminder
  = ({| db := (request_reminder (U := latin1) on_the_minute 42 7
                 (lit "team sync") (lit "2025-01-05 07:00") init_db).1;
        group_context := ∅ |},
     (request_reminder (U := latin1) on_the_minute 42 7
        (lit "team sync") (lit "2025-01-05 07:00") init_db).2).
Proof.
  apply (proj2 (set_reminder_needs_one_separator (U := latin1)
                  on_the_minute new_bot sync_reminder)
           (lit "team sync ") (lit " 2025-01-05 07:00")).
  - vm_compute. reflexivity.
  - vm_compute. reflexivity.
  - vm_compute. reflexivity.
Defined.

(** X8. A question registered with [/addfaq] is answered from then on:
    when no older row of the chat matches it, any ASCII spelling of the
    stripped question, in whatever case, gets the stripped answer, as long
    as that answer is not empty. *)
Theorem registered_faq_is_answered {U : Unicode} (bot : AIMessagingBot)
    (u : Update) (q a query : str) :
  join (lit " ") (args u) = q ++ lit "|" ++ a ->
  count_char 124%N q = 0%nat -> count_char 124%N a = 0%nat ->
  strip a ≠ [] ->
  forallb is_ascii query = true ->
  sql_lower (strip q) = sql_lower query ->
  (forall row, row ∈ knowledge (db bot) ->
               group_id row = group_of (chat_id u) ->
               sql_lower (question row) ≠ sql_lower query) ->
  (handle_question (group_of (chat_id u)) query (db (add_faq bot u).1)).1
  = Some (strip a).
Proof.
  intros Hj Hq Ha Hne Hascii Hfold Hold.
  rewrite (add_faq_stores bot u q a Hj Hq Ha). cbn [fst db].
  unfold handle_question.
  rewrite (get_faq_answer_hit (group_of (chat_id u)) query _
             (knowledge (db bot)) []
             {| group_id := group_of (chat_id u); question := strip q;
                answer := strip a; frequency := 1 |}).
  - cbn. destruct (strip a); [congruence | reflexivity].
  - reflexivity.
  - intros r Hin [Hg Hm]. rewrite sql_lower_ascii_agree in Hm by exact Hascii.
    exact (Hold r Hin Hg Hm).
  - split; [reflexivity|]. cbn.
    rewrite sql_lower_ascii_agree by exact Hascii. exact Hfold.
Qed.

Lemma registered_faq_is_answered_witness :
  (handle_question (U := latin1) (lit "42") (lit "Where is LUNCH?")
     (db (add_faq new_bot lunch_faq).1)).1
  = Some (lit "Room 2").
Proof.
  apply (registered_faq_is_answered (U := latin1) new_bot lunch_faq (lit "where is lunch? ") (lit " Room 2")
           (lit "Where is LUNCH?")).
  - vm_compute. reflexivity.
  - vm_compute. reflexivity.
  - vm_compute. reflexivity.
  - vm_compute. discriminate.
  - vm_compute. reflexivity.
  - vm_compute. reflexivity.
  - intros row Hin. vm_compute in Hin. inversion Hin.
Defined.

(** ** [strip] *)

Lemma lstrip_spec (s : str) :
  exists l, s = l ++ lstrip s
            ∧ Forall (fun c => isspace c = true) l
            ∧ (forall c, head (lstrip s) = Some c -> isspace c = false).
Proof.
  induction s as [|c s (l & Hs & Hl & Hh)].
  - exists []. split; [reflexivity|]. split; [constructor|]. discriminate.
  - cbn [lstrip]. destruct (isspace c) eqn:E.
    + exists (c :: l). split; [cbn; f_equal; exact Hs|].
      split; [constructor; assumption | exact Hh].
    + exists []. split; [reflexivity|]. split; [constructor|].
      intros x [= <-]. exact E.
Qed.

Lemma lstrip_id (s : str) :
  (forall c, head s = Some c -> isspace c = false) -> lstrip s = s.
Proof.
  destruct s as [|c s]; [reflexivity|]. intros H. cbn.
  rewrite (H c eq_refl). reflexivity.
Qed.

(** X9. [strip] removes whitespace at both ends and nothing else: the
    string is its stripped form between two runs of whitespace, the
    stripped form neither begins nor ends with whitespace, and stripping
    twice changes nothing more. So a question or an answer stored by
    [/addfaq], the content and time of a reminder, and an extracted
    question never carry surrounding whitespace. *)
Theorem strip_spec (s : str) :
  (exists l r, s = l ++ strip s ++ r
               ∧ Forall (fun c => isspace c = true) l
               ∧ Forall (fun c => isspace c = true) r)
  ∧ (forall c, head (strip s) = Some c -> isspace c = false)
  ∧ (forall c, last (strip s) = Some c -> isspace c = false)
  ∧ strip (strip s) = strip s.
Proof.
  destruct (lstrip_spec s) as (l & Hs & Hl & Hh).
  destruct (lstrip_spec (reverse (lstrip s))) as (r & Hr & Hrs & Hm).
  assert (strip s = reverse (lstrip (reverse (lstrip s)))) as Hstrip
    by reflexivity.
  rewrite !Hstrip. clear Hstrip.
  set (m := lstrip (reverse (lstrip s))) in *.
  assert (lstrip s = reverse m ++ reverse r) as Ht.
  { rewrite <- reverse_app, <- Hr, reverse_involutive. reflexivity. }
  assert (forall c, head (reverse m) = Some c -> isspace c = false) as Hhead.
  { intros c Hc. apply Hh. rewrite Ht.
    destruct (reverse m); [discriminate | exact Hc]. }
  assert (forall c, last (reverse m) = Some c -> isspace c = false) as Hlast.
  { intros c. rewrite last_reverse. apply Hm. }
  split; [|split; [exact Hhead|split; [exact Hlast|]]].
  - exists l, (reverse r). split; [rewrite <- Ht; exact Hs|].
    split; [exact Hl | apply Forall_reverse; exact Hrs].
  - unfold strip. rewrite (lstrip_id (reverse m) Hhead).
    rewrite (lstrip_id (reverse (reverse m))).
    + rewrite !reverse_involutive. reflexivity.
    + intros c. rewrite head_reverse. apply Hlast.
Qed.

(** ** What [strptime] returns *)

Lemma yields_weaken {A} (p : parser A) (Q Q' : A -> Prop) :
  yields p Q -> (forall v, Q v -> Q' v) -> yields p Q'.
Proof. intros Hp HQ s v rest Hin. exact (HQ v (Hp s v rest Hin)). Qed.

Lemma yields_pure {A} (a : A) (Q : A -> Prop) : Q a -> yields (pure a) Q.
Proof.
  intros H s v rest Hin. apply list_elem_of_singleton in Hin.
  injection Hin as -> _. exact H.
Qed.

Lemma yields_andthen {A B} (p : parser A) (f : A -> parser B)
    (Q1 : A -> Prop) (Q2 : B -> Prop) :
  yields p Q1 -> (forall a, Q1 a -> yields (f a) Q2) ->
  yields (andthen p f) Q2.
Proof.
  intros Hp Hf s v rest Hin. unfold andthen in Hin.
  apply list_elem_of_bind in Hin as ([a r] & Hv & Ha).
  exact (Hf a (Hp s a r Ha) r v rest Hv).
Qed.

Lemma yields_orelse {A} (p q : parser A) (Q : A -> Prop) :
  yields p Q -> yields q Q -> yields (orelse p q) Q.
Proof.
  intros Hp Hq s v rest [Hin|Hin]%elem_of_app;
    [exact (Hp s v rest Hin) | exact (Hq s v rest Hin)].
Qed.

Lemma yields_digit_in (lo hi : N) :
  yields (digit_in lo hi) (fun v => Z.of_N lo <= v <= Z.of_N hi).
Proof.
  intros [|c s] v rest Hin; cbn in Hin; [inversion Hin|].
  destruct (_ && _) eqn:E; [|inversion Hin].
  apply list_elem_of_singleton in Hin. injection Hin as -> _.
  apply andb_prop in E as [Hlo%N.leb_le Hhi%N.leb_le]. lia.
Qed.

Lemma yields_two (p q : parser Z) (la ha lb hb : Z) :
  yields p (fun a => la <= a <= ha) -> yields q (fun b => lb <= b <= hb) ->
  yields (two p q) (fun v => 10 * la + lb <= v <= 10 * ha + hb).
Proof.
  intros Hp Hq. unfold two.
  apply (yields_andthen p _ (fun a => la <= a <= ha)); [exact Hp|].
  intros a Ha.
  apply (yields_andthen q _ (fun b => lb <= b <= hb)); [exact Hq|].
  intros b Hb. apply yields_pure. lia.
Qed.

Section DecimalDigits.
Context {U : Unicode}.
Hypothesis decimal_at_most_9 : forall c v, decimal c = Some v -> (v <= 9)%N.

Lemma yields_digit : yields digit (fun v => 0 <= v <= 9).
Proof.
  intros [|c s] v rest Hin; cbn in Hin; [inversion Hin|].
  destruct (decimal c) as [n|] eqn:E; [|inversion Hin].
  apply list_elem_of_singleton in Hin. injection Hin as -> _.
  pose proof (decimal_at_most_9 c n E). lia.
Qed.

Lemma yields_directive_Y : yields directive_Y (fun v => 0 <= v <= 9999).
Proof.
  unfold directive_Y.
  apply (yields_andthen _ _ (fun a => 10 * 0 + 0 <= a <= 10 * 9 + 9));
    [apply yields_two; apply yields_digit|].
  intros hi Hhi.
  apply (yields_andthen _ _ (fun a => 10 * 0 + 0 <= a <= 10 * 9 + 9));
    [apply yields_two; apply yields_digit|].
  intros lo Hlo. apply yields_pure. lia.
Qed.

Lemma yields_directive_m : yields directive_m (fun v => 1 <= v <= 12).
Proof.
  unfold directive_m. repeat apply yields_orelse.
  - apply (yields_weaken _ _ _ (yields_two _ _ _ _ _ _
             (yields_digit_in 1 1) (yields_digit_in 0 2))). lia.
  - apply (yields_weaken _ _ _ (yields_two _ _ _ _ _ _
             (yields_digit_in 0 0) (yields_digit_in 1 9))). lia.
  - apply (yields_weaken _ _ _ (yields_digit_in 1 9)). lia.
Qed.

Lemma yields_directive_d : yields directive_d (fun v => 1 <= v <= 39).
Proof.
  unfold directive_d. repeat apply yields_orelse.
  - apply (yields_weaken _ _ _ (yields_two _ _ _ _ _ _
             (yields_digit_in 3 3) (yields_digit_in 0 1))). lia.
  - apply (yields_weaken _ _ _ (yields_two _ _ _ _ _ _
             (yields_digit_in 1 2) yields_digit)). lia.
  - apply (yields_weaken _ _ _ (yields_two _ _ _ _ _ _
             (yields_digit_in 0 0) (yields_digit_in 1 9))). lia.
  - apply (yields_weaken _ _ _ (yields_digit_in 1 9)). lia.
  - apply (yields_andthen _ _ (fun _ => True)); [intros ? ? ? _; exact I|].
    intros _ _. apply (yields_weaken _ _ _ (yields_digit_in 1 9)). lia.
Qed.

Lemma yields_directive_H : yields directive_H (fun v => 0 <= v < 24).
Proof.
  unfold directive_H. repeat apply yields_orelse.
  - apply (yields_weaken _ _ _ (yields_two _ _ _ _ _ _
             (yields_digit_in 2 2) (yields_digit_in 0 3))). lia.
  - apply (yields_weaken _ _ _ (yields_two _ _ _ _ _ _
             (yields_digit_in 0 1) yields_digit)). lia.
  - apply (yields_weaken _ _ _ yields_digit). lia.
Qed.

Lemma yields_directive_M : yields directive_M (fun v => 0 <= v < 60).
Proof.
  unfold directive_M. repeat apply yields_orelse.
  - apply (yields_weaken _ _ _ (yields_two _ _ _ _ _ _
             (yields_digit_in 0 5) yields_digit)). lia.
  - apply (yields_weaken _ _ _ yields_digit). lia.
Qed.

Lemma yields_format_regex :
  yields format_regex
    (fun t => 0 <= year t <= 9999 ∧ 1 <= month t <= 12 ∧ 1 <= day t
              ∧ 0 <= hour t < 24 ∧ 0 <= minute t < 60
              ∧ second t = 0 ∧ microsecond t = 0).
Proof.
  unfold format_regex.
  apply (yields_andthen _ _ _ _ yields_directive_Y). intros Y HY.
  apply (yields_andthen _ _ (fun _ => True)); [intros ? ? ? _; exact I|].
  intros _ _.
  apply (yields_andthen _ _ _ _ yields_directive_m). intros m Hm.
  apply (yields_andthen _ _ (fun _ => True)); [intros ? ? ? _; exact I|].
  intros _ _.
  apply (yields_andthen _ _ _ _ yields_directive_d). intros d Hd.
  apply (yields_andthen _ _ (fun _ => True)); [intros ? ? ? _; exact I|].
  intros _ _.
  apply (yields_andthen _ _ _ _ yields_directive_H). intros H HH.
  apply (yields_andthen _ _ (fun _ => True)); [intros ? ? ? _; exact I|].
  intros _ _.
  apply (yields_andthen _ _ _ _ yields_directive_M). intros M HM.
  apply yields_pure. cbn. repeat split; lia.
Qed.
End DecimalDigits.

Lemma strptime_yields_valid {U : Unicode} (s : str) (t : datetime) :
  (forall c v, decimal c = Some v -> (v <= 9)%N) ->
  strptime s = Some t ->
  valid_datetime t ∧ second t = 0 ∧ microsecond t = 0.
Proof.
  intros Hdec. unfold strptime.
  destruct (format_regex s) as [|[t' rest] l] eqn:E; [discriminate|].
  destruct rest; [|discriminate].
  destruct (_ && _) eqn:Hc; [|discriminate]. intros [= ->].
  apply andb_prop in Hc as [Hy%Z.leb_le Hd%Z.leb_le].
  assert ((t, []) ∈ format_regex s) as Hin by (rewrite E; left).
  destruct (yields_format_regex Hdec s t [] Hin)
    as (HY & Hm & Hd1 & HH & HM & HS & Hus).
  unfold valid_datetime. rewrite HS, Hus. repeat split; lia.
Qed.

(** X10. Whatever [strptime] accepts is a date and time that exists: a
    year from 1 to 9999, a month from 1 to 12, a day that the month of
    that year has, an hour below 24 and a minute below 60, at second 0
    and microsecond 0 (decimal digits being worth at most 9, as Unicode
    has them). *)
Theorem strptime_valid {U : Unicode} (s : str) (t : datetime) :
  (forall c v, decimal c = Some v -> (v <= 9)%N) ->
  strptime s = Some t ->
  valid_datetime t ∧ second t = 0 ∧ microsecond t = 0.
Proof. apply strptime_yields_valid. Qed.

Lemma strptime_valid_witness :
  valid_datetime seven_sharp
  ∧ second seven_sharp = 0 ∧ microsecond seven_sharp = 0.
Proof.
  apply (strptime_valid (U := latin1) (lit "2025-1-5  7:00") seven_sharp).
  - intros c v H. cbn in H. unfold ascii_decimal in H.
    destruct (_ && _) eqn:E in H; [|discriminate].
    injection H as <-. apply andb_prop in E as [_ E%N.leb_le]. lia.
  - vm_compute. reflexivity.
Defined.

(** ** What [/setreminder] stores and schedules *)

Lemma snoc_ne {A} (l : list A) (x : A) : l ++ [x] ≠ l.
Proof.
  intros H. apply (f_equal length) in H. rewrite length_app in H.
  cbn in H. lia.
Qed.

(** X11. [request_reminder] always sends exactly one reply. It stores a
    reminder row exactly when the time string parses, the time is not
    before the clock and the database works; it schedules the delivery
    exactly when the time string parses, the time is not before the clock
    and the connection could be opened. So every stored reminder is
    scheduled, and a reminder whose [INSERT] failed is scheduled without
    being stored. *)
Theorem reminder_stored_and_scheduled {U : Unicode} (h : Host) (chat mid : Z)
    (content time_str : str) (d : Database) :
  length (replies (request_reminder h chat mid content time_str d).2) = 1%nat
  ∧ (reminders (request_reminder h chat mid content time_str d).1
     ≠ reminders d
     <-> exists when,
           strptime time_str = Some when
           ∧ datetime_lt when (now_at_check h) = false
           ∧ fault h = None)
  ∧ (forall when,
        strptime time_str = Some when ->
        datetime_lt when (now_at_check h) = false ->
        fault h = None ->
        reminders (request_reminder h chat mid content time_str d).1
        = reminders d ++ [reminder_row chat mid content when])
  ∧ (tasks (request_reminder h chat mid content time_str d).2 ≠ []
     <-> exists when,
           strptime time_str = Some when
           ∧ datetime_lt when (now_at_check h) = false
           ∧ fault h ≠ Some ConnectFails).
Proof.
  unfold request_reminder.
  destruct (strptime time_str) as [when|].
  2: { split; [reflexivity|]. split; [|split].
       - split; [intros H; contradiction H; reflexivity
                | intros (w & Hw & _); discriminate Hw].
       - intros w Hw. discriminate Hw.
       - split; [intros H; contradiction H; reflexivity
                | intros (w & Hw & _); discriminate Hw]. }
  destruct (datetime_lt when (now_at_check h)) eqn:Hlt.
  { split; [reflexivity|]. split; [|split].
    - split; [intros H; contradiction H; reflexivity
             | intros (w & [= <-] & Hw & _); congruence].
    - intros w [= <-] Hw. congruence.
    - split; [intros H; contradiction H; reflexivity
             | intros (w & [= <-] & Hw & _); congruence]. }
  destruct (fault h) as [[]|] eqn:Hf; cbn;
    (split; [reflexivity|]); (split; [|split]).
  - split; [intros H; contradiction H; reflexivity
           | intros (w & _ & _ & Hw); discriminate Hw].
  - intros w _ _ Hw. discriminate Hw.
  - split; [intros H; contradiction H; reflexivity
           | intros (w & _ & _ & Hw); contradiction Hw; reflexivity].
  - split; [intros H; contradiction H; reflexivity
           | intros (w & _ & _ & Hw); discriminate Hw].
  - intros w _ _ Hw. discriminate Hw.
  - split; [intros _; exists when; repeat split; [assumption|discriminate]
           | discriminate].
  - split; [intros H; contradiction H; reflexivity
           | intros (w & _ & _ & Hw); discriminate Hw].
  - intros w _ _ Hw. discriminate Hw.
  - split; [intros _; exists when; repeat split; [assumption|discriminate]
           | discriminate].
  - split; [intros _; exists when; repeat split; assumption
           | intros _; apply snoc_ne].
  - intros w [= <-] _ _. reflexivity.
  - split; [intros _; exists when; repeat split; [assumption|discriminate]
           | discriminate].
Qed.

Lemma reminder_stored_and_scheduled_witness :
  reminders (request_reminder (U := latin1) on_the_minute 42 7
               (lit "team sync") (lit "2025-01-05 07:00") init_db).1
  = reminders init_db ++ [reminder_row 42 7 (lit "team sync") seven_sharp].
Proof.
  apply (proj1 (proj2 (proj2 (reminder_stored_and_scheduled (U := latin1)
           on_the_minute 42 7 (lit "team sync") (lit "2025-01-05 07:00")
           init_db))) seven_sharp).
  - vm_compute. reflexivity.
  - vm_compute. reflexivity.
  - reflexivity.
Defined.

(** ** Comparing and subtracting datetimes *)

Lemma days_before_year_step (y : Z) :
  days_before_year (y + 1)
  = days_before_year y + (if is_leap y then 366 else 365).
Proof.
  unfold days_before_year, is_leap. cbv zeta.
  replace (y + 1 - 1) with y by lia.
  destruct (Z.eqb_spec (y mod 4) 0) as [H4|H4];
    destruct (Z.eqb_spec (y mod 100) 0) as [H100|H100];
    destruct (Z.eqb_spec (y mod 400) 0) as [H400|H400]; cbn;
    Z.div_mod_to_equations; lia.
Qed.

Lemma days_before_year_mono (y1 y2 : Z) :
  y1 <= y2 -> days_before_year y1 <= days_before_year y2.
Proof.
  intros Hle. replace y2 with (y1 + Z.of_nat (Z.to_nat (y2 - y1))) by lia.
  induction (Z.to_nat (y2 - y1)) as [|n IH].
  - replace (y1 + Z.of_nat 0) with y1 by lia. lia.
  - replace (y1 + Z.of_nat (S n)) with (y1 + Z.of_nat n + 1) by lia.
    rewrite days_before_year_step. destruct (is_leap _); lia.
Qed.

Lemma month_cases (m : Z) :
  1 <= m <= 12 ->
  m = 1 ∨ m = 2 ∨ m = 3 ∨ m = 4 ∨ m = 5 ∨ m = 6 ∨ m = 7 ∨ m = 8 ∨ m = 9
  ∨ m = 10 ∨ m = 11 ∨ m = 12.
Proof. lia. Qed.

Lemma days_before_month_table (y m : Z) :
  1 <= m <= 12 ->
  days_before_month y m
  = match m with
    | 1 => 0 | 2 => 31 | 3 => 59 | 4 => 90 | 5 => 120 | 6 => 151
    | 7 => 181 | 8 => 212 | 9 => 243 | 10 => 273 | 11 => 304 | _ => 334
    end
    + (if is_leap y && (2 <? m) then 1 else 0).
Proof.
  intros Hm. apply month_cases in Hm.
  repeat (destruct Hm as [->|Hm]); try subst m;
    unfold days_before_month, days_in_month;
    generalize (is_leap y); intros []; vm_compute; reflexivity.
Qed.

Lemma days_in_month_table (y m : Z) :
  1 <= m <= 12 ->
  days_in_month y m
  = match m with
    | 2 => if is_leap y then 29 else 28
    | 4 | 6 | 9 | 11 => 30
    | _ => 31
    end.
Proof.
  intros Hm. apply month_cases in Hm.
  repeat (destruct Hm as [->|Hm]); try subst m; reflexivity.
Qed.

Lemma day_of_year_bounds (y m d : Z) :
  1 <= m <= 12 -> 1 <= d <= days_in_month y m ->
  1 <= days_before_month y m + d <= (if is_leap y then 366 else 365).
Proof.
  intros Hm. rewrite days_before_month_table, days_in_month_table by exact Hm.
  apply month_cases in Hm.
  repeat (destruct Hm as [->|Hm]); try subst m;
    destruct (is_leap y); cbn; lia.
Qed.

Lemma day_of_year_mono (y m1 d1 m2 d2 : Z) :
  1 <= m1 <= 12 -> 1 <= m2 <= 12 -> m1 < m2 ->
  d1 <= days_in_month y m1 -> 1 <= d2 ->
  days_before_month y m1 + d1 < days_before_month y m2 + d2.
Proof.
  intros H1 H2.
  rewrite !days_before_month_table, days_in_month_table by assumption.
  apply month_cases in H1. apply month_cases in H2.
  repeat (destruct H1 as [->|H1]); try subst m1;
    repeat (destruct H2 as [->|H2]); try subst m2;
    intros Hlt; try lia;
    destruct (is_leap y); cbn; lia.
Qed.

Lemma ymd2ord_mono (a b : datetime) :
  valid_datetime a -> valid_datetime b ->
  year a < year b
  ∨ year a = year b
    ∧ (month a < month b ∨ month a = month b ∧ day a < day b) ->
  ymd2ord (year a) (month a) (day a) < ymd2ord (year b) (month b) (day b).
Proof.
  intros (_ & Hma & Hda & _) (_ & Hmb & Hdb & _) Hlt. unfold ymd2ord.
  pose proof (day_of_year_bounds _ _ _ Hma Hda) as Ha.
  pose proof (day_of_year_bounds _ _ _ Hmb Hdb) as Hb.
  destruct Hlt as [Hy|[Hy [Hm|[Hm Hd]]]].
  - pose proof (days_before_year_mono (year a + 1) (year b) ltac:(lia)) as Hmono.
    rewrite days_before_year_step in Hmono. lia.
  - rewrite Hy in *.
    pose proof (day_of_year_mono (year b) (month a) (day a) (month b) (day b)
                  Hma Hmb Hm ltac:(lia) ltac:(lia)). lia.
  - rewrite Hy, Hm. lia.
Qed.

Lemma lex_lt_iff (x1 x2 x3 x4 x5 x6 x7 y1 y2 y3 y4 y5 y6 y7 : Z) :
  lex_lt [x1; x2; x3; x4; x5; x6; x7] [y1; y2; y3; y4; y5; y6; y7] = true
  <-> x1 < y1 ∨ x1 = y1 ∧ (x2 < y2 ∨ x2 = y2 ∧ (x3 < y3 ∨ x3 = y3 ∧
      (x4 < y4 ∨ x4 = y4 ∧ (x5 < y5 ∨ x5 = y5 ∧ (x6 < y6 ∨ x6 = y6 ∧
       x7 < y7))))).
Proof.
  cbn [lex_lt]. rewrite andb_false_r, orb_false_r.
  repeat (rewrite orb_true_iff || rewrite andb_true_iff).
  rewrite !Z.ltb_lt, !Z.eqb_eq. tauto.
Qed.

Lemma earlier_means_fewer_microseconds (a b : datetime) :
  valid_datetime a -> valid_datetime b ->
  datetime_lt a b = true -> to_microseconds a < to_microseconds b.
Proof.
  intros Ha Hb Hlt. unfold datetime_lt, fields in Hlt.
  apply lex_lt_iff in Hlt. unfold to_microseconds.
  pose proof (ymd2ord_mono a b Ha Hb) as Hord.
  destruct Ha as (_ & _ & _ & HHa & HMa & HSa & Hua).
  destruct Hb as (_ & _ & _ & HHb & HMb & HSb & Hub).
  destruct Hlt as [Hy|[Hy [Hm|[Hm [Hd|[Hd Hrest]]]]]].
  - specialize (Hord ltac:(lia)). lia.
  - specialize (Hord ltac:(lia)). lia.
  - specialize (Hord ltac:(lia)). lia.
  - rewrite Hy, Hm, Hd. lia.
Qed.

Lemma datetime_lt_spec (a b : datetime) :
  valid_datetime a -> valid_datetime b ->
  (datetime_lt a b = true <-> to_microseconds a < to_microseconds b).
Proof.
  intros Ha Hb. split; [apply earlier_means_fewer_microseconds; assumption|].
  intros Hneg. destruct (datetime_lt a b) eqn:Hab; [reflexivity|].
  exfalso.
  destruct (datetime_lt b a) eqn:Hba.
  - pose proof (earlier_means_fewer_microseconds b a Hb Ha Hba). lia.
  - assert (fields a = fields b) as Heq.
    { unfold datetime_lt, fields in *.
      apply not_true_iff_false in Hab, Hba.
      rewrite lex_lt_iff in Hab, Hba.
      assert (year a = year b) as -> by lia.
      assert (month a = month b) as -> by lia.
      assert (day a = day b) as -> by lia.
      assert (hour a = hour b) as -> by lia.
      assert (minute a = minute b) as -> by lia.
      assert (second a = second b) as -> by lia.
      assert (microsecond a = microsecond b) as -> by lia.
      reflexivity. }
    unfold fields in Heq. injection Heq as Hy Hm Hd HH HM HS Hus.
    unfold to_microseconds in Hneg.
    rewrite Hy, Hm, Hd, HH, HM, HS, Hus in Hneg. lia.
Qed.

(** X12. On dates and times that exist, the comparison [a < b] and the
    subtraction agree: [a < b] holds exactly when [(a - b)] is a negative
    duration. So a reminder is refused as past exactly when its delay,
    measured at the same reading of the clock, would be negative, and an
    accepted reminder has a delay of at least zero at that reading. *)
Theorem earlier_iff_negative_delay (a b : datetime) :
  valid_datetime a -> valid_datetime b ->
  (datetime_lt a b = true <-> delay_between a b < 0).
Proof.
  intros Ha Hb. rewrite (datetime_lt_spec a b Ha Hb).
  unfold delay_between. lia.
Qed.

Lemma earlier_iff_negative_delay_witness :
  datetime_lt seven_sharp just_after_seven = true
  <-> delay_between seven_sharp just_after_seven < 0.
Proof.
  apply (earlier_iff_negative_delay seven_sharp just_after_seven).
  - vm_compute. repeat split; discriminate.
  - vm_compute. repeat split; discriminate.
Defined.

(** ** The delay handed to the scheduler *)

(** X17. Every task that [request_reminder] creates carries the content
    and the chat of the request, and a delay no smaller than the (negated)
    time that passed between the two readings of the clock: the reminder
    time is not before the first reading, and the delay is counted from
    the second. *)
Theorem scheduled_delay_lower_bound {U : Unicode} (h : Host) (chat mid : Z)
    (content time_str : str) (d : Database) (task : Task) :
  (forall c v, decimal c = Some v -> (v <= 9)%N) ->
  valid_datetime (now_at_check h) ->
  task ∈ tasks (request_reminder h chat mid content time_str d).2 ->
  task_chat task = chat
  ∧ task_content task = content
  ∧ delay_between (now_at_check h) (now_at_schedule h) <= task_delay task.
Proof.
  intros Hdec Hnow. unfold request_reminder.
  destruct (strptime time_str) as [when|] eqn:Hp; [|intros Hin; inversion Hin].
  destruct (datetime_lt when (now_at_check h)) eqn:Hlt;
    [intros Hin; inversion Hin|].
  destruct (strptime_yields_valid time_str when Hdec Hp) as [Hvalid _].
  assert (to_microseconds (now_at_check h) <= to_microseconds when) as Hle.
  { destruct (Z.le_gt_cases (to_microseconds (now_at_check h))
                (to_microseconds when)) as [Hle|Hgt]; [exact Hle|].
    apply (datetime_lt_spec when (now_at_check h) Hvalid Hnow) in Hgt.
    congruence. }
  destruct (fault h) as [[]|]; cbn; intros Hin;
    try (inversion Hin; fail);
    apply list_elem_of_singleton in Hin; subst task; cbn;
    unfold delay_between; repeat split; lia.
Qed.

Lemma scheduled_delay_lower_bound_witness :
  task_chat {| task_chat := 42; task_content := lit "team sync";
               task_delay := -150 |} = 42
  ∧ task_content {| task_chat := 42; task_content := lit "team sync";
                    task_delay := -150 |} = lit "team sync"
  ∧ delay_between (now_at_check on_the_minute) (now_at_schedule on_the_minute)
    <= task_delay {| task_chat := 42; task_content := lit "team sync";
                     task_delay := -150 |}.
Proof.
  apply (scheduled_delay_lower_bound (U := latin1) on_the_minute 42 7
           (lit "team sync") (lit "2025-01-05 07:00") init_db).
  - intros c v H. cbn in H. unfold ascii_decimal in H.
    destruct (_ && _) eqn:E in H; [|discriminate].
    injection H as <-. apply andb_prop in E as [_ E%N.leb_le]. lia.
  - vm_compute. repeat split; discriminate.
  - vm_compute. left.
Defined.

(** ** The two branches of [handle_message] *)

Lemma handle_question_same_knowledge {U : Unicode} (group q : str)
    (d d' : Database) :
  knowledge d = knowledge d' ->
  (handle_question group q d).1 = (handle_question group q d').1
  ∧ knowledge (handle_question group q d).2.1
    = knowledge (handle_question group q d').2.1
  ∧ (handle_question group q d).2.2 = (handle_question group q d').2.2.
Proof.
  intros Hk. unfold handle_question, get_faq_answer. rewrite Hk.
  destruct (fetchone _) as [[a f]|].
  - destruct (truthy (Some a)); repeat split; reflexivity.
  - cbn [truthy fst snd store_faq with_knowledge knowledge]. rewrite Hk.
    repeat split; reflexivity.
Qed.

(** X18. In [handle_message] the archive of important messages and the
    FAQ do not interfere: the knowledge table and the answer (or the
    request to clarify) are those of the question branch run on the
    database as it was, whether or not the message was archived first;
    the notice of importance, if any, comes before; and a message with no
    question leaves the knowledge table alone. *)
Theorem question_branch_is_independent {U : Unicode} {P : Pipeline}
    (bot : AIMessagingBot) (u : Update) :
  knowledge (db (handle_message bot u).1)
  = (if truthy (extract_question (message_text u))
     then knowledge
            (handle_question (group_of (chat_id u))
               (default [] (extract_question (message_text u)))
               (db bot)).2.1
     else knowledge (db bot))
  ∧ replies (handle_message bot u).2
    = (if detect_relevance (message_text u)
       then [[128226%N] ++ lit " [Important] " ++ message_text u]
       else [])
      ++ (if truthy (extract_question (message_text u))
          then replies
                 (handle_question (group_of (chat_id u))
                    (default [] (extract_question (message_text u)))
                    (db bot)).2.2
          else []).
Proof.
  unfold handle_message.
  destruct (detect_relevance (message_text u));
    destruct (truthy (extract_question (message_text u))); cbn;
    try (split; reflexivity).
  - destruct (handle_question_same_knowledge (group_of (chat_id u))
                (default [] (extract_question (message_text u)))
                (store_important_message (group_of (chat_id u))
                   (message_id u) (message_text u) (db bot))
                (db bot) eq_refl) as (_ & Hk & He).
    destruct (handle_question _ _ (store_important_message _ _ _ _))
      as [r [d e]]. cbn in *. rewrite Hk, He. split; reflexivity.
  - destruct (handle_question _ _ _) as [r [d e]]. split; reflexivity.
Qed.

(** ** Answers are final *)

(** X19. Once a question of a group is answered automatically, it gets
    the same answer ever after, whatever updates are handled in between:
    rows are only appended and the oldest match wins, so a later
    [/addfaq] for the same question cannot replace the answer. *)
Theorem answer_is_final {U : Unicode} {P : Pipeline} (bot : AIMessagingBot)
    (evs : list Event) (group q a : str) :
  (handle_question group q (db bot)).1 = Some a ->
  (handle_question group q (db (run bot evs))).1 = Some a.
Proof.
  intros Hans.
  assert (a ≠ []
          ∧ exists f, fetchone (select_answer_frequency group (str_lower q)
                                 (knowledge (db bot))) = Some (a, f))
    as [Ha [f Hhit]].
  { unfold handle_question, get_faq_answer in Hans.
    destruct (fetchone _) as [[a' f]|]; [|discriminate Hans].
    destruct a' as [|c a']; [discriminate Hans|].
    injection Hans as <-. split; [discriminate|]. exists f. reflexivity. }
  destruct (fetchone_grows group (str_lower q) _ _ _ _ (run_columns evs bot)
              Hhit) as [f' Hhit'].
  exact (handle_question_delivers group q _ a f' Hhit' Ha).
Qed.

Lemma answer_is_final_witness :
  (handle_question (U := latin1) (lit "42") (lit "What is the venue")
     (db (run (U := latin1) (P := whitespace_pipeline)
            {| db := venue_db; group_context := ∅ |} lunch_events))).1
  = Some (lit "Building 5").
Proof.
  apply (answer_is_final (U := latin1) (P := whitespace_pipeline)
           {| db := venue_db; group_context := ∅ |} lunch_events).
  vm_compute. reflexivity.
Defined.

(** ** Runs of the two-way statements *)

Lemma detect_relevance_iff_witness :
  (exists pre kw post,
      str_lower (Unicode := latin1) (lit "See you at the EVENT!")
      = pre ++ kw ++ post
      ∧ kw ∈ concat IMPORTANT_KEYWORDS
      ∧ (forall c, last pre = Some c -> is_word (U := latin1) c = false)
      ∧ (forall c, head post = Some c -> is_word (U := latin1) c = false))
  ∨ (exists ent,
        ent ∈ ents (nlp (Pipeline := blank_pipeline)
                      (str_lower (Unicode := latin1)
                         (lit "See you at the EVENT!")))
        ∧ label_ ent ∈ lit <$> ["DATE"; "TIME"; "EVENT"]%string).
Proof.
  apply (proj1 (detect_relevance_iff (U := latin1) (P := blank_pipeline)
                  (lit "See you at the EVENT!"))).
  vm_compute. reflexivity.
Defined.

Lemma auto_answer_iff_oldest_match_witness :
  lit "Building 5" ≠ []
  ∧ exists pre row post,
      knowledge venue_db = pre ++ row :: post
      ∧ (forall r, r ∈ pre ->
           ¬ (group_id r = lit "42"
              ∧ sql_lower (question r)
                = str_lower (Unicode := latin1) (lit "What is the venue")))
      ∧ group_id row = lit "42"
      ∧ sql_lower (question row)
        = str_lower (Unicode := latin1) (lit "What is the venue")
      ∧ answer row = lit "Building 5".
Proof.
  apply (proj1 (auto_answer_iff_oldest_match (U := latin1) (lit "42")
                  (lit "What is the venue") venue_db (lit "Building 5"))).
  vm_compute. reflexivity.
Defined.

Lemma strip_spec_witness : isspace 97%N = false.
Proof.
  apply (proj1 (proj2 (strip_spec (lit "  a b  "))) 97%N).
  vm_compute. reflexivity.
Defined.
